(** * Postman collection results -> Qase: a shallow embedding

    The repository holds three variants of one script:

    - [PerCase]: src/submit_collection_results_to_qase.js (v1 result endpoint,
      one POST per case, markdown unescaping, pattern [/Qase:(\d+)/]);
    - [Batch]:   src/unnamed/part_000 (v2 endpoint, one POST for all results,
      markdown unescaping, pattern [/Qase:(\d+)/i]);
    - [Legacy]:  src/unnamed/part_001 (v1 endpoint, no unescaping, overall
      status computed from the assertions, pattern [/Qase:(\d+)/]).

    JavaScript strings are represented by [string], the sequence of their
    UTF-8 bytes.  Every character the regular expressions of the scripts name
    is ASCII, and no byte of a multi-byte UTF-8 sequence is ASCII, so matching
    on bytes and matching on UTF-16 code units select the same text.
    JavaScript numbers that hold case ids, positions and run ids are
    represented by [N]; [parseInt] is exact here, as it is in JavaScript
    below 2^53. *)

From Stdlib Require Import NArith Ascii String Lia.
From stdpp Require Import base option list strings gmap.

Local Open Scope N_scope.

(** ** Characters and regular expressions *)

(** [\d] is the class [0-9]. *)
Definition isDigit (c : ascii) : bool :=
  (48 <=? N_of_ascii c) && (N_of_ascii c <=? 57).

(** Canonicalisation of a character under the [i] flag (without [u]): the
    upper-case form; on ASCII only [a-z] change. *)
Definition toUpperCase (c : ascii) : ascii :=
  if (97 <=? N_of_ascii c) && (N_of_ascii c <=? 122)
  then ascii_of_N (N_of_ascii c - 32) else c.

(** One pattern character against one input character. *)
Definition charMatches (ignoreCase : bool) (p c : ascii) : bool :=
  if ignoreCase then Ascii.eqb (toUpperCase p) (toUpperCase c)
  else Ascii.eqb p c.

(** The literal part of a pattern, matched at the start of [s]; the rest of
    the input on success. *)
Fixpoint matchLiteral (ignoreCase : bool) (lit s : string) : option string :=
  match lit with
  | EmptyString => Some s
  | String p lit' =>
      match s with
      | EmptyString => None
      | String c s' =>
          if charMatches ignoreCase p c then matchLiteral ignoreCase lit' s'
          else None
      end
  end.

(** Greedy [\d*]: the longest prefix of digits. *)
Fixpoint takeDigits (s : string) : string :=
  match s with
  | EmptyString => EmptyString
  | String c s' => if isDigit c then String c (takeDigits s') else EmptyString
  end.

(** [Qase:(\d+)] anchored at the start of [s]: the capture group. *)
Definition matchQaseAt (ignoreCase : bool) (s : string) : option string :=
  match matchLiteral ignoreCase "Qase:" s with
  | Some rest =>
      match takeDigits rest with
      | EmptyString => None
      | digits => Some digits
      end
  | None => None
  end.

(** [name.match(/Qase:(\d+)/)] (or [/.../i]): the leftmost position at which
    the pattern matches; [Some] holds capture group 1, [None] is [null]. *)
Fixpoint matchQase (ignoreCase : bool) (name : string) : option string :=
  match matchQaseAt ignoreCase name with
  | Some digits => Some digits
  | None =>
      match name with
      | EmptyString => None
      | String _ name' => matchQase ignoreCase name'
      end
  end.

(** [parseInt] on a capture of [\d+]: its decimal value. *)
Fixpoint parseDigits (acc : N) (s : string) : N :=
  match s with
  | EmptyString => acc
  | String c s' => parseDigits (10 * acc + (N_of_ascii c - 48)) s'
  end.

Definition parseInt (digits : string) : N := parseDigits 0 digits.

(** The character class [[\\`*_{}[\]()#+\-.!]] of [unescapeMarkdown]. *)
Definition isMarkdownSpecial (c : ascii) : bool :=
  existsb (Ascii.eqb c)
    (list_ascii_of_string "\`*_{}[]()#+-.!").

(** [text.replace(/\\([\\`*_{}[\]()#+\-.!])/g, '$1')]: scanning from the left,
    a backslash followed by a character of the class is replaced by that
    character and the scan resumes after the pair. *)
Fixpoint replaceEscapes (text : string) : string :=
  match text with
  | EmptyString => EmptyString
  | String c rest =>
      match rest with
      | EmptyString => String c EmptyString
      | String d rest' =>
          if Ascii.eqb c "\" && isMarkdownSpecial d
          then String d (replaceEscapes rest')
          else String c (replaceEscapes rest)
      end
  end.

(** [unescapeMarkdown(text)]: [None] stands for an absent ([undefined] or
    [null]) value, which is returned as it is, as is the empty string. *)
Definition unescapeMarkdown (text : option string) : option string :=
  match text with
  | None => None
  | Some EmptyString => Some EmptyString
  | Some t => Some (replaceEscapes t)
  end.

(** ** Data model *)

(** [a.error]: present exactly when the check failed. *)
Record ErrorInfo := { message : string }.

Record Assertion := { name : string; error : option ErrorInfo }.

(** One execution as the scripts keep it: [{ name, assertions }]. *)
Record Execution := { exec_name : string; assertions : list Assertion }.

(** One entry of [run.executions] in the report; [tests] may be missing. *)
Record ReportExecution :=
  { requestExecuted_name : string; tests : option (list Assertion) }.

(** One step of a case as the service returns it; every field may be
    missing.  A position is an ordinal: a natural number when present. *)
Record CaseStep :=
  { position : option N;
    action : option string;
    expected_result : option string }.

(** [response.data.result] of [GET /case/{project}/{caseId}]. *)
Record CaseResult := { steps : option (list CaseStep) }.

Inductive Status := passed | failed.

Definition Status_eqb (a b : Status) : bool :=
  match a, b with
  | passed, passed | failed, failed => true
  | _, _ => false
  end.

(** A step of a submitted result, v1 shape:
    [{ position, action, expected_result, status }]. *)
Record StepResult :=
  { sr_position : N;
    sr_action : option string;
    sr_expected_result : string;
    sr_status : Status }.

(** Body of [POST /v1/result/{project}/{runId}]. *)
Record ResultBody :=
  { case_id : N;
    status : Status;
    comment : string;
    rb_steps : list StepResult }.

(** A step of a submitted result, v2 shape:
    [{ position, data: { action, expected_result }, execution: { status } }]. *)
Record StepData := { sd_action : option string; sd_expected_result : string }.
Record StepExecution := { se_status : Status }.
Record StepResultV2 :=
  { v2_position : N; v2_data : StepData; v2_execution : StepExecution }.

(** One element of [tc_results], v2 shape. *)
Record TcExecution := { te_status : Status }.
Record TcFields := { description : string }.
Record TcResult :=
  { title : string;
    testops_id : N;
    tc_execution : TcExecution;
    tc_fields : TcFields;
    tc_steps : list StepResultV2 }.

(** ** JavaScript helpers shared by the three scripts *)

(** [v || d] for a number that may be missing: [0] is falsy too. *)
Definition orNumber (v : option N) (d : N) : N :=
  match v with
  | Some n => if n =? 0 then d else n
  | None => d
  end.

(** [v || d] for a string that may be missing: the empty string is falsy. *)
Definition orString (v : option string) (d : string) : string :=
  match v with
  | Some EmptyString => d
  | Some s => s
  | None => d
  end.

(** Truthiness of a value that is an object when present. *)
Definition truthy {A} (v : option A) : bool :=
  match v with Some _ => true | None => false end.

(** [a.name === v] where [v] may be missing. *)
Definition strictEquals (s : string) (v : option string) : bool :=
  match v with
  | Some t => String.eqb s t
  | None => false
  end.

(** [.filter(Boolean)] on the list of [parseInt] results and [null]s:
    [null] and [0] are dropped. *)
Definition filterBoolean (l : list (option N)) : list N :=
  flat_map (fun v => match v with
                     | Some n => if n =? 0 then [] else [n]
                     | None => []
                     end) l.

(** [[...new Set(l)]]: the distinct values in first-insertion order. *)
Definition setAdd (acc : list N) (x : N) : list N :=
  if existsb (N.eqb x) acc then acc else acc ++ [x].

Definition spreadSet (l : list N) : list N := fold_left setAdd l [].

(** [postmanResults.run.executions.map(e => ({ name: e.requestExecuted.name,
    assertions: e.tests || [] }))]. *)
Definition executions (report : list ReportExecution) : list Execution :=
  map (fun e => {| exec_name := requestExecuted_name e;
                   assertions := default [] (tests e) |}) report.

(** The case id an execution name refers to: [match ? parseInt(match[1]) :
    null]. *)
Definition caseIdOf (ignoreCase : bool) (exec : Execution) : option N :=
  match matchQase ignoreCase (exec_name exec) with
  | Some digits => Some (parseInt digits)
  | None => None
  end.

(** [[...new Set(executions.map(...).filter(Boolean))]], for either form of
    the pattern. *)
Definition caseIdsWith (ignoreCase : bool) (execs : list Execution) : list N :=
  spreadSet (filterBoolean (map (caseIdOf ignoreCase) execs)).

Definition newline : string := String (ascii_of_N 10) EmptyString.

(** One line of the comment:
    [a.error ? `❌ ${a.name}: ${a.error.message}` : `✅ ${a.name}`]. *)
Definition commentLine (a : Assertion) : string :=
  match error a with
  | Some e => "❌ " +:+ name a +:+ ": " +:+ message e
  | None => "✅ " +:+ name a
  end.

(** [exec.assertions.map(...).join("\n")]. *)
Definition renderComment (exec : Execution) : string :=
  String.concat newline (map commentLine (assertions exec)).

(** [assertion ? (assertion.error ? "failed" : "passed") : "failed"]. *)
Definition verdict (assertion : option Assertion) : Status :=
  match assertion with
  | Some a => if truthy (error a) then failed else passed
  | None => failed
  end.

(** ** The service and the effects of the scripts *)

(** Requests sent to the service; the project code and the token are fixed
    by the environment and left out. *)
Inductive Request :=
| PostRun (run_title : string) (cases : list N)
| GetCase (caseId : N)
| PostResult (runId : N) (body : ResultBody)
| PostResults (runId : N) (results : list TcResult).

(** The service: what it answers to the last request of a history of
    requests.  [None] (or [false]) is a failed request, on which axios
    throws; otherwise the reply is [response.data.result]. *)
Record Remote :=
  { runReply : list Request -> option N;
    caseReply : list Request -> option CaseResult;
    resultReply : list Request -> bool }.

Inductive Outcome (A : Type) := Done (a : A) | Thrown.
Arguments Done {A} a.
Arguments Thrown {A}.

(** A computation sends requests, extending the history, and returns or
    throws. *)
Definition IO (A : Type) : Type := list Request -> Outcome A * list Request.

Definition ret {A} (a : A) : IO A := fun h => (Done a, h).

Definition bind {A B} (m : IO A) (k : A -> IO B) : IO B :=
  fun h => match m h with
           | (Done a, h') => k a h'
           | (Thrown, h') => (Thrown, h')
           end.

Notation "x <- m ;; k" := (bind m (fun x => k))
  (at level 100, m at next level, right associativity).

(** [await axios.post(...)] / [await axios.get(...)]. *)
Definition request {A} (reply : list Request -> option A) (r : Request) : IO A :=
  fun h => let h' := h ++ [r] in
           match reply h' with
           | Some a => (Done a, h')
           | None => (Thrown, h')
           end.

Definition accepted (reply : list Request -> bool) (h : list Request) : option unit :=
  if reply h then Some tt else None.

Section Scripts.

Variable remote : Remote.

(** [createTestRun(caseIds)]; the title is [test_run_tag], or in the oldest
    script a string derived from the clock. *)
Definition createTestRun (run_title : string) (caseIds : list N) : IO N :=
  request (runReply remote) (PostRun run_title caseIds).

(** [getCaseSteps(caseId)]: [response.data.result.steps || []]. *)
Definition getCaseSteps (caseId : N) : IO (list CaseStep) :=
  result <- request (caseReply remote) (GetCase caseId) ;;
  ret (default [] (steps result)).

End Scripts.

(** ** src/submit_collection_results_to_qase.js *)
Module PerCase.

Definition caseIds (execs : list Execution) : list N := caseIdsWith false execs.

(** The callback of [qaseSteps.map((step, index) => ...)]. *)
(** [exec.assertions.find(a => a.name === unescapeMarkdown(step.expected_result))]:
    the first assertion that satisfies the test, if any. *)
Definition assertion (exec : Execution) (step : CaseStep) : option Assertion :=
  find (fun a => strictEquals (name a) (unescapeMarkdown (expected_result step)))
       (assertions exec).

Definition stepResult (exec : Execution) (index : nat) (step : CaseStep) : StepResult :=
  let assertion := assertion exec step in
  {| sr_position := orNumber (position step) (N.of_nat index + 1);
     sr_action := action step;
     sr_expected_result := orString (expected_result step) "Expected result";
     sr_status := verdict assertion |}.

Definition stepsQase (exec : Execution) (qaseSteps : list CaseStep) : list StepResult :=
  imap (stepResult exec) qaseSteps.

(** The body posted for one execution, from [stepsQase] on. *)
Definition resultBody (exec : Execution) (caseId : N) (qaseSteps : list CaseStep) : ResultBody :=
  let stepsQase := stepsQase exec qaseSteps in
  let failedChecker :=
    forallb (fun a => negb (Status_eqb (sr_status a) failed)) stepsQase in
  {| case_id := caseId;
     status := if failedChecker then passed else failed;
     comment := renderComment exec;
     rb_steps := stepsQase |}.

Section Run.
Variable remote : Remote.

Fixpoint submitResults (runId : N) (execs : list Execution) : IO unit :=
  match execs with
  | [] => ret tt
  | exec :: rest =>
      match matchQase false (exec_name exec) with
      | None => submitResults runId rest
      | Some digits =>
          let caseId := parseInt digits in
          qaseSteps <- getCaseSteps remote caseId ;;
          _ <- request (accepted (resultReply remote))
                 (PostResult runId (resultBody exec caseId qaseSteps)) ;;
          submitResults runId rest
      end
  end.

(** The main block; the exit code is [0] when nothing is thrown and [1]
    otherwise. *)
Definition main (test_run_tag : string) (execs : list Execution) : IO unit :=
  runId <- createTestRun remote test_run_tag (caseIds execs) ;;
  submitResults runId execs.

End Run.
End PerCase.

(** ** src/unnamed/part_000 *)
Module Batch.

Definition caseIds (execs : list Execution) : list N := caseIdsWith true execs.

Definition assertion (exec : Execution) (step : CaseStep) : option Assertion :=
  find (fun a => strictEquals (name a) (unescapeMarkdown (expected_result step)))
       (assertions exec).

Definition stepResult (exec : Execution) (index : nat) (step : CaseStep) : StepResultV2 :=
  let assertion := assertion exec step in
  {| v2_position := orNumber (position step) (N.of_nat index + 1);
     v2_data :=
       {| sd_action := action step;
          sd_expected_result := orString (expected_result step) "Expected result" |};
     v2_execution := {| se_status := verdict assertion |} |}.

Definition stepsQase (exec : Execution) (qaseSteps : list CaseStep) : list StepResultV2 :=
  imap (stepResult exec) qaseSteps.

(** The element pushed on [tc_results] for one execution. *)
Definition tcResult (exec : Execution) (caseId : N) (qaseSteps : list CaseStep) : TcResult :=
  let stepsQase := stepsQase exec qaseSteps in
  let failedChecker :=
    forallb (fun a => negb (Status_eqb (se_status (v2_execution a)) failed)) stepsQase in
  {| title := exec_name exec;
     testops_id := caseId;
     tc_execution := {| te_status := if failedChecker then passed else failed |};
     tc_fields := {| description := renderComment exec |};
     tc_steps := stepsQase |}.

Section Run.
Variable remote : Remote.

(** The loop of [submitResults], which pushes on [tc_results]. *)
Fixpoint collectResults (execs : list Execution) (tc_results : list TcResult)
  : IO (list TcResult) :=
  match execs with
  | [] => ret tc_results
  | exec :: rest =>
      match matchQase true (exec_name exec) with
      | None => collectResults rest tc_results
      | Some digits =>
          let caseId := parseInt digits in
          qaseSteps <- getCaseSteps remote caseId ;;
          collectResults rest (tc_results ++ [tcResult exec caseId qaseSteps])
      end
  end.

Definition submitResults (runId : N) (execs : list Execution) : IO unit :=
  tc_results <- collectResults execs [] ;;
  request (accepted (resultReply remote)) (PostResults runId tc_results).

Definition main (test_run_tag : string) (execs : list Execution) : IO unit :=
  runId <- createTestRun remote test_run_tag (caseIds execs) ;;
  submitResults runId execs.

End Run.
End Batch.

(** ** src/unnamed/part_001 *)
Module Legacy.

Definition caseIds (execs : list Execution) : list N := caseIdsWith false execs.

(** [exec.assertions.find(a => a.name === step.expected_result)]. *)
Definition assertion (exec : Execution) (step : CaseStep) : option Assertion :=
  find (fun a => strictEquals (name a) (expected_result step)) (assertions exec).

Definition stepResult (exec : Execution) (index : nat) (step : CaseStep) : StepResult :=
  let assertion := assertion exec step in
  {| sr_position := orNumber (position step) (N.of_nat index + 1);
     sr_action := action step;
     sr_expected_result := orString (expected_result step) "Expected result";
     sr_status := verdict assertion |}.

Definition stepsQase (exec : Execution) (qaseSteps : list CaseStep) : list StepResult :=
  imap (stepResult exec) qaseSteps.

Definition resultBody (exec : Execution) (caseId : N) (qaseSteps : list CaseStep) : ResultBody :=
  let stepsQase := stepsQase exec qaseSteps in
  let passed' := forallb (fun a => negb (truthy (error a))) (assertions exec) in
  {| case_id := caseId;
     status := if passed' then passed else failed;
     comment := renderComment exec;
     rb_steps := stepsQase |}.

Section Run.
Variable remote : Remote.

Fixpoint submitResults (runId : N) (execs : list Execution) : IO unit :=
  match execs with
  | [] => ret tt
  | exec :: rest =>
      match matchQase false (exec_name exec) with
      | None => submitResults runId rest
      | Some digits =>
          let caseId := parseInt digits in
          qaseSteps <- getCaseSteps remote caseId ;;
          _ <- request (accepted (resultReply remote))
                 (PostResult runId (resultBody exec caseId qaseSteps)) ;;
          submitResults runId rest
      end
  end.

(** The title of the run is derived from the clock and given here. *)
Definition main (run_title : string) (execs : list Execution) : IO unit :=
  runId <- createTestRun remote run_title (caseIds execs) ;;
  submitResults runId execs.

End Run.
End Legacy.

(** ** Specification-side notions *)


(** A backslash directly followed by a backslash occurs in [s]. *)
Fixpoint hasDoubleBackslash (s : string) : bool :=
  match s with
  | EmptyString => false
  | String c rest =>
      match rest with
      | EmptyString => false
      | String d _ => (Ascii.eqb c "\" && Ascii.eqb d "\") || hasDoubleBackslash rest
      end
  end.

(** A backslash directly followed by a character of the class occurs in [s]:
    the text still holds an escape. *)
Fixpoint hasEscape (s : string) : bool :=
  match s with
  | EmptyString => false
  | String c rest =>
      match rest with
      | EmptyString => false
      | String d _ => (Ascii.eqb c "\" && isMarkdownSpecial d) || hasEscape rest
      end
  end.

(** The character [c] occurs in [s]. *)
Fixpoint mentions (c : ascii) (s : string) : bool :=
  match s with
  | EmptyString => false
  | String d s' => Ascii.eqb c d || mentions c s'
  end.

(** A service that answers one way whatever the history. *)
Definition constantRemote (runId : option N) (case : option CaseResult) (ok : bool) : Remote :=
  {| runReply := fun _ => runId; caseReply := fun _ => case; resultReply := fun _ => ok |}.

(** Every request to the service succeeds. *)
Definition alwaysSucceeds (remote : Remote) : Prop :=
  forall h, is_Some (runReply remote h)
            /\ is_Some (caseReply remote h)
            /\ resultReply remote h = true.

(** An execution with the given name. *)
Definition named (n : string) (l : list Assertion) : Execution :=
  {| exec_name := n; assertions := l |}.

(** ** The top level of src/submit_collection_results_to_qase.js *)

(** Truthiness of a string that may be missing. *)
Definition truthyString (v : option string) : bool :=
  match v with
  | Some EmptyString => false
  | Some _ => true
  | None => false
  end.

(** What the [try]/[catch] of the main block makes of an outcome: the exit
    code of the process. *)
Definition exitCode {A} (o : Outcome A) : N :=
  match o with
  | Done _ => 0
  | Thrown => 1
  end.

(** The whole script.  [env] is [process.env] once [dotenv.config()] has
    run; [readReport path] stands for
    [JSON.parse(fs.readFileSync(path, "utf-8")).run.executions], [None] when
    one of the three throws, which ends the process with exit code 1 as an
    uncaught exception does.  The result is the exit code and the requests
    sent. *)
Definition script (env : gmap string string)
    (readReport : string -> option (list ReportExecution))
    (remote : Remote) : N * list Request :=
  let QASE_API_TOKEN := env !! "QASE_API_TOKEN" in
  let QASE_PROJECT_CODE := env !! "QASE_PROJECT_CODE" in
  let REPORT_FILE := orString (env !! "POSTMAN_JSON_REPORT") "results.json" in
  let test_run_tag := orString (env !! "QASE_TEST_RUN_TAG") "Local Run" in
  if negb (truthyString QASE_API_TOKEN) || negb (truthyString QASE_PROJECT_CODE)
  then (1, [])
  else
    match readReport REPORT_FILE with
    | None => (1, [])
    | Some report =>
        let (outcome, h) := PerCase.main remote test_run_tag (executions report) [] in
        (exitCode outcome, h)
    end.

(** ** Further specification-side notions *)

(** Every character of [s] is a digit. *)
Fixpoint isDigits (s : string) : bool :=
  match s with
  | EmptyString => true
  | String c s' => isDigit c && isDigits s'
  end.

(** Every character of [s] is the digit zero. *)
Fixpoint isZeros (s : string) : bool :=
  match s with
  | EmptyString => true
  | String c s' => Ascii.eqb c "0" && isZeros s'
  end.

(** [s] does not start with a digit. *)
Definition noLeadingDigit (s : string) : bool :=
  match s with
  | EmptyString => true
  | String c _ => negb (isDigit c)
  end.

(** Markdown escaping as the unescaping undoes it: a backslash before every
    character of the class. *)
Fixpoint escapeMarkdown (s : string) : string :=
  match s with
  | EmptyString => EmptyString
  | String c s' =>
      if isMarkdownSpecial c then String "\" (String c (escapeMarkdown s'))
      else String c (escapeMarkdown s')
  end.

(** The case ids of the executions whose name matches the pattern, one per
    execution, in report order. *)
Definition matchedIds (ignoreCase : bool) (execs : list Execution) : list N :=
  omap (caseIdOf ignoreCase) execs.

(** The case ids fetched in a history of requests. *)
Definition fetched (h : list Request) : list N :=
  omap (fun r => match r with GetCase caseId => Some caseId | _ => None end) h.

(** The case ids of the results posted one by one in a history. *)
Definition postedCases (h : list Request) : list N :=
  omap (fun r => match r with PostResult _ body => Some (case_id body) | _ => None end) h.

(** The execution with its assertions replaced. *)
Definition withAssertions (exec : Execution) (l : list Assertion) : Execution :=
  {| exec_name := exec_name exec; assertions := l |}.

(** A v2 step read in the v1 shape. *)
Definition flattenStep (v : StepResultV2) : StepResult :=
  {| sr_position := v2_position v;
     sr_action := sd_action (v2_data v);
     sr_expected_result := sd_expected_result (v2_data v);
     sr_status := se_status (v2_execution v) |}.

(** The service answered the last request of the history [h]. *)
Definition answered (remote : Remote) (h : list Request) : bool :=
  match last h with
  | Some (PostRun _ _) => truthy (runReply remote h)
  | Some (GetCase _) => truthy (caseReply remote h)
  | Some (PostResult _ _) => resultReply remote h
  | Some (PostResults _ _) => resultReply remote h
  | None => true
  end.

(** The service answered every request of [h] when it was sent. *)
Definition allAnswered (remote : Remote) (h : list Request) : Prop :=
  forall pre r post, h = pre ++ r :: post -> answered remote (pre ++ [r]) = true.

(** What a computation started in history [h] has come to: it has only added
    requests; if it returned, every request was answered; if it threw, the
    last request it sent is the only one that was not. *)
Definition stopsAtFirstFailure {A} (remote : Remote) (h : list Request)
    (res : Outcome A * list Request) : Prop :=
  h `prefix_of` snd res
  /\ match fst res with
     | Done _ => allAnswered remote (snd res)
     | Thrown => exists pre r, snd res = pre ++ [r]
                   /\ allAnswered remote pre
                   /\ answered remote (snd res) = false
     end.

(** A computation that stops at the first failure from every history in
    which all requests were answered. *)
Definition orderly {A} (remote : Remote) (m : IO A) : Prop :=
  forall h, allAnswered remote h -> stopsAtFirstFailure remote h (m h).

(** Requests of the submission loop of the per-case scripts for the run
    [runId]: fetches of cases and results posted to this run. *)
Definition forRun (runId : N) (r : Request) : Prop :=
  match r with
  | GetCase _ => True
  | PostResult runId' _ => runId' = runId
  | _ => False
  end.

(** * Properties *)

(** ** Case of the pattern *)














(** ** Markdown unescaping *)

Lemma unescapeMarkdown_Some s : unescapeMarkdown (Some s) = Some (replaceEscapes s).
Proof. destruct s; reflexivity. Qed.

Lemma backslash_is_special : isMarkdownSpecial "\" = true.
Proof. reflexivity. Qed.

Lemma replaceEscapes_pair c d rest :
  replaceEscapes (String c (String d rest))
  = if Ascii.eqb c "\" && isMarkdownSpecial d
    then String d (replaceEscapes rest)
    else String c (replaceEscapes (String d rest)).
Proof. reflexivity. Qed.

Lemma replaceEscapes_plain c rest :
  Ascii.eqb c "\" = false ->
  replaceEscapes (String c rest) = String c (replaceEscapes rest).
Proof. intros H. destruct rest; simpl; [reflexivity|]. rewrite H. reflexivity. Qed.

Lemma hasEscape_plain c rest :
  Ascii.eqb c "\" = false -> hasEscape (String c rest) = hasEscape rest.
Proof. intros H. destruct rest; simpl; [reflexivity|]. rewrite H. reflexivity. Qed.

Lemma hasDoubleBackslash_tail c rest :
  hasDoubleBackslash (String c rest) = false -> hasDoubleBackslash rest = false.
Proof.
  destruct rest as [|d rest]; [reflexivity|].
  cbn [hasDoubleBackslash]. intros H. apply orb_false_iff in H as [_ H]. exact H.
Qed.

(** Text without an escape is left as it is. *)
Lemma replaceEscapes_fixed s : hasEscape s = false -> replaceEscapes s = s.
Proof.
  induction s as [|c rest IH]; [reflexivity|].
  destruct rest as [|d rest']; [reflexivity|].
  intros H. cbn [hasEscape] in H. apply orb_false_iff in H as [Hc Hr].
  cbn [replaceEscapes]. rewrite Hc. f_equal. apply IH, Hr.
Qed.

(** Without an escaped backslash in the input, no escape is left in the
    output. *)
Lemma replaceEscapes_no_escape_left n :
  forall s, (String.length s <= n)%nat ->
    hasDoubleBackslash s = false -> hasEscape (replaceEscapes s) = false.
Proof.
  induction n as [|n IH]; intros s Hlen Hdb.
  - destruct s; [reflexivity | simpl in Hlen; lia].
  - destruct s as [|c rest]; [reflexivity|].
    destruct rest as [|d rest']; [reflexivity|].
    pose proof (hasDoubleBackslash_tail _ _ Hdb) as Hrest.
    cbn [hasDoubleBackslash] in Hdb. apply orb_false_iff in Hdb as [Hcd _].
    simpl in Hlen.
    rewrite replaceEscapes_pair.
    destruct (Ascii.eqb c "\") eqn:Hc; cbn [andb].
    + cbn [andb] in Hcd.
      destruct (isMarkdownSpecial d) eqn:Hd.
      * rewrite (hasEscape_plain _ _ Hcd).
        apply IH; [lia | apply (hasDoubleBackslash_tail _ _ Hrest)].
      * assert (Hgoal : hasEscape (replaceEscapes (String d rest')) = false)
          by (apply IH; [simpl; lia | exact Hrest]).
        rewrite (replaceEscapes_plain _ _ Hcd) in *.
        cbn [hasEscape]. rewrite Hd, andb_false_r. exact Hgoal.
    + rewrite (hasEscape_plain _ _ Hc).
      apply IH; [simpl; lia | exact Hrest].
Qed.

(** Unescaping never lengthens a text, and shortens a text that holds an
    escape. *)
Lemma replaceEscapes_length n :
  forall s, (String.length s <= n)%nat ->
    (String.length (replaceEscapes s) <= String.length s)%nat
    /\ (hasEscape s = true ->
        (String.length (replaceEscapes s) < String.length s)%nat).
Proof.
  induction n as [|n IH]; intros s Hlen.
  - destruct s; [split; [simpl; lia | discriminate] | simpl in Hlen; lia].
  - destruct s as [|c rest]; [split; [simpl; lia | discriminate]|].
    destruct rest as [|d rest']; [split; [simpl; lia | discriminate]|].
    simpl in Hlen. rewrite replaceEscapes_pair. cbn [hasEscape].
    destruct (Ascii.eqb c "\" && isMarkdownSpecial d).
    + destruct (IH rest' ltac:(lia)) as [Hle _].
      cbn [String.length]. split; intros; lia.
    + destruct (IH (String d rest') ltac:(simpl; lia)) as [Hle Hlt].
      cbn [orb]. cbn [String.length] in *. split; [lia|].
      intros H. specialize (Hlt H). lia.
Qed.

Lemma replaceEscapes_fixed_iff s : replaceEscapes s = s <-> hasEscape s = false.
Proof.
  split; [|apply replaceEscapes_fixed].
  intros H. destruct (hasEscape s) eqn:He; [|reflexivity].
  destruct (replaceEscapes_length (String.length s) s ltac:(lia)) as [_ Hlt].
  specialize (Hlt He). rewrite H in Hlt. lia.
Qed.

(** C4, as amended: unescaping twice gives what unescaping once gives
    exactly when the text unescaped once holds no escape any more; this is so
    for every string in which no backslash is directly followed by a
    backslash; and a string that holds no escape is left as it is. *)
Theorem C4_unescape_idempotent_without_escaped_backslash :
  (forall s, hasDoubleBackslash s = false ->
     unescapeMarkdown (unescapeMarkdown (Some s)) = unescapeMarkdown (Some s))
  /\ (forall s, hasEscape s = false -> unescapeMarkdown (Some s) = Some s)
  /\ (forall s, unescapeMarkdown (unescapeMarkdown (Some s)) = unescapeMarkdown (Some s)
                <-> hasEscape (replaceEscapes s) = false).
Proof.
  split; [|split]; intros s; rewrite !unescapeMarkdown_Some.
  - intros H. f_equal. apply replaceEscapes_fixed.
    apply (replaceEscapes_no_escape_left (String.length s)); [lia | exact H].
  - intros H. f_equal. apply replaceEscapes_fixed, H.
  - rewrite <- replaceEscapes_fixed_iff. split; [intros [= H]; exact H | congruence].
Qed.

Lemma C4_unescape_idempotent_without_escaped_backslash_witness :
  unescapeMarkdown (unescapeMarkdown (Some "Body has \_id \(string\)"))
  = unescapeMarkdown (Some "Body has \_id \(string\)")
  /\ unescapeMarkdown (Some "Status code is 200") = Some "Status code is 200".
Proof.
  split.
  - apply (proj1 C4_unescape_idempotent_without_escaped_backslash). reflexivity.
  - apply (proj1 (proj2 C4_unescape_idempotent_without_escaped_backslash)). reflexivity.
Defined.

(** C4, as stated, fails: an escaped backslash followed by a character of the
    class is unescaped once more by the second pass. *)
Lemma C4_escaped_backslash_unescapes_twice :
  unescapeMarkdown (Some "\\*") = Some "\*"
  /\ unescapeMarkdown (unescapeMarkdown (Some "\\*")) = Some "*"
  /\ unescapeMarkdown (unescapeMarkdown (Some "\\*")) <> unescapeMarkdown (Some "\\*").
Proof. repeat split; try reflexivity. discriminate. Qed.

(** ** Aggregation *)

Lemma Status_eqb_failed s : negb (Status_eqb s failed) = true <-> s = passed.
Proof. destruct s; simpl; split; intros H; try reflexivity; discriminate H. Qed.

(** [l.every(a => a.status !== "failed")] says that every status is
    ["passed"]. *)
Lemma every_not_failed {A} (st : A -> Status) (l : list A) :
  forallb (fun a => negb (Status_eqb (st a) failed)) l = true
  <-> Forall (fun a => st a = passed) l.
Proof.
  induction l as [|x l IH]; simpl.
  - split; [constructor | reflexivity].
  - rewrite andb_true_iff, IH, Status_eqb_failed. split.
    + intros [Hx Hl]. constructor; assumption.
    + intros H. inversion H; subst. split; assumption.
Qed.

Lemma every_without_error (l : list Assertion) :
  forallb (fun a => negb (truthy (error a))) l = true
  <-> Forall (fun a => error a = None) l.
Proof.
  induction l as [|x l IH]; simpl.
  - split; [constructor | reflexivity].
  - rewrite andb_true_iff, IH. split.
    + intros [Hx Hl]. constructor; [|assumption].
      destruct (error x); [discriminate Hx | reflexivity].
    + intros H. inversion H as [|? ? Hx Hl]; subst. rewrite Hx. split; [reflexivity | assumption].
Qed.

Lemma if_status_passed (b : bool) : (if b then passed else failed) = passed <-> b = true.
Proof. destruct b; split; intros H; try reflexivity; discriminate H. Qed.

Lemma if_status_failed (b : bool) : (if b then passed else failed) = failed <-> b <> true.
Proof. destruct b; split; intros H; try reflexivity; try discriminate H; congruence. Qed.

Lemma PerCase_status_passed_iff exec caseId qaseSteps :
  status (PerCase.resultBody exec caseId qaseSteps) = passed
  <-> Forall (fun v => sr_status v = passed) (PerCase.stepsQase exec qaseSteps).
Proof.
  unfold PerCase.resultBody. cbn [status].
  rewrite if_status_passed. apply (every_not_failed sr_status).
Qed.

Lemma Batch_status_passed_iff exec caseId qaseSteps :
  te_status (tc_execution (Batch.tcResult exec caseId qaseSteps)) = passed
  <-> Forall (fun v => se_status (v2_execution v) = passed) (Batch.stepsQase exec qaseSteps).
Proof.
  unfold Batch.tcResult. cbn [te_status tc_execution].
  rewrite if_status_passed.
  apply (every_not_failed (fun v => se_status (v2_execution v))).
Qed.

Lemma Legacy_status_passed_iff exec caseId qaseSteps :
  status (Legacy.resultBody exec caseId qaseSteps) = passed
  <-> Forall (fun a => error a = None) (assertions exec).
Proof.
  unfold Legacy.resultBody. cbn [status].
  rewrite if_status_passed. apply every_without_error.
Qed.

Lemma status_failed_iff (s : Status) (P : Prop) :
  (s = passed <-> P) -> (s = failed <-> ~ P).
Proof.
  intros [H1 H2]. destruct s; split; intros H'.
  - discriminate H'.
  - exfalso. apply H', H1. reflexivity.
  - intros HP. specialize (H2 HP). discriminate H2.
  - reflexivity.
Qed.

(** C2, as amended: in src/submit_collection_results_to_qase.js and in
    part_000 the overall status is "passed" exactly when the status of every
    step verdict is "passed", and "failed" otherwise, so that an empty step
    sequence gives "passed".  In part_001 the overall status is "passed"
    exactly when no assertion of the execution carries an error, whatever the
    step verdicts are. *)
Theorem C2_overall_status_by_script (exec : Execution) (caseId : N) (qaseSteps : list CaseStep) :
  (status (PerCase.resultBody exec caseId qaseSteps) = passed
   <-> Forall (fun v => sr_status v = passed)
              (rb_steps (PerCase.resultBody exec caseId qaseSteps)))
  /\ (status (PerCase.resultBody exec caseId qaseSteps) = failed
      <-> ~ Forall (fun v => sr_status v = passed)
                   (rb_steps (PerCase.resultBody exec caseId qaseSteps)))
  /\ status (PerCase.resultBody exec caseId []) = passed
  /\ (te_status (tc_execution (Batch.tcResult exec caseId qaseSteps)) = passed
      <-> Forall (fun v => se_status (v2_execution v) = passed)
                 (tc_steps (Batch.tcResult exec caseId qaseSteps)))
  /\ (te_status (tc_execution (Batch.tcResult exec caseId qaseSteps)) = failed
      <-> ~ Forall (fun v => se_status (v2_execution v) = passed)
                   (tc_steps (Batch.tcResult exec caseId qaseSteps)))
  /\ te_status (tc_execution (Batch.tcResult exec caseId [])) = passed
  /\ (status (Legacy.resultBody exec caseId qaseSteps) = passed
      <-> Forall (fun a => error a = None) (assertions exec))
  /\ (status (Legacy.resultBody exec caseId qaseSteps) = failed
      <-> ~ Forall (fun a => error a = None) (assertions exec)).
Proof.
  pose proof (PerCase_status_passed_iff exec caseId qaseSteps) as HP.
  pose proof (Batch_status_passed_iff exec caseId qaseSteps) as HB.
  pose proof (Legacy_status_passed_iff exec caseId qaseSteps) as HL.
  split; [exact HP|]. split; [apply status_failed_iff, HP|].
  split; [reflexivity|].
  split; [exact HB|]. split; [apply status_failed_iff, HB|].
  split; [reflexivity|].
  split; [exact HL | apply status_failed_iff, HL].
Qed.

(** C2, as stated, fails on part_001: an execution without assertions and a
    case with one step give the overall status "passed" although the verdict
    of the step is "failed". *)
Lemma C2_legacy_status_ignores_steps :
  let exec := named "Login Qase:501" [] in
  let step := {| position := Some 1; action := Some "Send request";
                 expected_result := Some "Status code is 200" |} in
  status (Legacy.resultBody exec 501 [step]) = passed
  /\ sr_status <$> rb_steps (Legacy.resultBody exec 501 [step]) = [failed]
  /\ ~ (status (Legacy.resultBody exec 501 [step]) = passed
        <-> Forall (fun v => sr_status v = passed)
                   (rb_steps (Legacy.resultBody exec 501 [step]))).
Proof.
  cbv zeta. split; [reflexivity|]. split; [reflexivity|].
  intros [H _]. specialize (H eq_refl). inversion H as [|? ? Hv _]. discriminate Hv.
Qed.

(** *** Matching a step to an assertion *)

Lemma strictEquals_true s v : strictEquals s v = true <-> Some s = v.
Proof.
  destruct v as [t|]; simpl.
  - rewrite String.eqb_eq. split; congruence.
  - split; discriminate.
Qed.

Lemma strictEquals_false s v : strictEquals s v = false <-> Some s <> v.
Proof.
  rewrite <- strictEquals_true. destruct (strictEquals s v); split; congruence.
Qed.

(** [find] with the test [a.name === target] returns the first assertion in
    list order whose name is the target. *)
Lemma find_first_named (target : option string) (l : list Assertion) (a : Assertion) :
  find (fun b => strictEquals (name b) target) l = Some a
  <-> exists l1 l2, l = l1 ++ a :: l2
        /\ Some (name a) = target
        /\ Forall (fun b => Some (name b) <> target) l1.
Proof.
  induction l as [|x l IH]; simpl.
  - split; [discriminate|]. intros (l1 & l2 & H & _). destruct l1; discriminate H.
  - destruct (strictEquals (name x) target) eqn:Hx.
    + split.
      * intros [= <-]. exists [], l. repeat split; [|constructor].
        apply strictEquals_true, Hx.
      * intros (l1 & l2 & Hl & Ha & Hl1). destruct l1 as [|y l1].
        -- injection Hl as -> _. reflexivity.
        -- injection Hl as -> _. inversion Hl1 as [|? ? Hy _]; subst.
           apply strictEquals_true in Hx. contradiction.
    + rewrite IH. split.
      * intros (l1 & l2 & -> & Ha & Hl1). exists (x :: l1), l2.
        repeat split; [exact Ha|]. constructor; [|exact Hl1].
        apply strictEquals_false, Hx.
      * intros (l1 & l2 & Hl & Ha & Hl1). destruct l1 as [|y l1].
        -- injection Hl as <- _. apply strictEquals_false in Hx. contradiction.
        -- injection Hl as _ ->. inversion Hl1; subst. exists l1, l2. auto.
Qed.

Lemma find_none_named (target : option string) (l : list Assertion) :
  find (fun b => strictEquals (name b) target) l = None
  <-> Forall (fun b => Some (name b) <> target) l.
Proof.
  induction l as [|x l IH]; simpl.
  - split; [constructor | reflexivity].
  - destruct (strictEquals (name x) target) eqn:Hx.
    + split; [discriminate|]. intros H. inversion H as [|? ? Hn _]; subst.
      apply strictEquals_true in Hx. contradiction.
    + rewrite IH. split.
      * intros H. constructor; [apply strictEquals_false, Hx | exact H].
      * intros H. inversion H; assumption.
Qed.

(** C3, as amended: in src/submit_collection_results_to_qase.js (and
    part_000) a step is matched to an assertion exactly when the name of the
    assertion is equal, as a string, to the markdown-unescaped
    [expected_result] of the step; the first such assertion in assertion
    order is used, and its verdict is the status of the step.  In part_001
    the same holds with the [expected_result] as it is, without
    unescaping. *)
Theorem C3_step_matching_by_script (exec : Execution) (step : CaseStep) (index : nat) :
  (forall a, PerCase.assertion exec step = Some a
     <-> exists l1 l2, assertions exec = l1 ++ a :: l2
           /\ Some (name a) = unescapeMarkdown (expected_result step)
           /\ Forall (fun b => Some (name b) <> unescapeMarkdown (expected_result step)) l1)
  /\ (PerCase.assertion exec step = None
      <-> Forall (fun b => Some (name b) <> unescapeMarkdown (expected_result step))
                 (assertions exec))
  /\ sr_status (PerCase.stepResult exec index step) = verdict (PerCase.assertion exec step)
  /\ Batch.assertion exec step = PerCase.assertion exec step
  /\ se_status (v2_execution (Batch.stepResult exec index step))
     = verdict (Batch.assertion exec step)
  /\ (forall a, Legacy.assertion exec step = Some a
        <-> exists l1 l2, assertions exec = l1 ++ a :: l2
              /\ Some (name a) = expected_result step
              /\ Forall (fun b => Some (name b) <> expected_result step) l1)
  /\ (Legacy.assertion exec step = None
      <-> Forall (fun b => Some (name b) <> expected_result step) (assertions exec))
  /\ sr_status (Legacy.stepResult exec index step) = verdict (Legacy.assertion exec step).
Proof.
  repeat split; try reflexivity;
    try apply find_first_named; try apply find_none_named.
Qed.

(** C3, as stated, fails on part_001: the name of the assertion is the
    unescaped [expected_result] of the step, and the step is not matched. *)
Lemma C3_legacy_matches_without_unescaping :
  let a := {| name := "Body has _id"; error := None |} in
  let exec := named "Create Qase:7" [a] in
  let step := {| position := Some 1; action := None;
                 expected_result := Some "Body has \_id" |} in
  Some (name a) = unescapeMarkdown (expected_result step)
  /\ Legacy.assertion exec step = None
  /\ sr_status (Legacy.stepResult exec 0 step) = failed
  /\ PerCase.assertion exec step = Some a
  /\ sr_status (PerCase.stepResult exec 0 step) = passed.
Proof. cbv zeta. repeat split; reflexivity. Qed.

Lemma verdict_unmatched (target : option string) (l : list Assertion) :
  Forall (fun b => Some (name b) <> target) l ->
  verdict (find (fun b => strictEquals (name b) target) l) = failed.
Proof. intros H. apply find_none_named in H. rewrite H. reflexivity. Qed.

(** Without a match, every verdict of [stepsQase] is "failed". *)
Lemma PerCase_unmatched_steps_fail exec qaseSteps :
  Forall (fun step => PerCase.assertion exec step = None) qaseSteps ->
  Forall (fun v => sr_status v = failed) (PerCase.stepsQase exec qaseSteps).
Proof.
  intros H. apply Forall_lookup. intros i v Hv.
  apply list_lookup_imap_Some in Hv as (step & Hstep & ->).
  pose proof (Forall_lookup_1 _ _ _ _ H Hstep) as Hnone. cbn in Hnone.
  unfold PerCase.stepResult. cbn [sr_status]. rewrite Hnone. reflexivity.
Qed.

Lemma Batch_unmatched_steps_fail exec qaseSteps :
  Forall (fun step => Batch.assertion exec step = None) qaseSteps ->
  Forall (fun v => se_status (v2_execution v) = failed) (Batch.stepsQase exec qaseSteps).
Proof.
  intros H. apply Forall_lookup. intros i v Hv.
  apply list_lookup_imap_Some in Hv as (step & Hstep & ->).
  pose proof (Forall_lookup_1 _ _ _ _ H Hstep) as Hnone. cbn in Hnone.
  unfold Batch.stepResult. cbn [se_status v2_execution]. rewrite Hnone. reflexivity.
Qed.

Lemma not_all_passed_when_all_failed {A} (st : A -> Status) (l : list A) :
  l <> [] -> Forall (fun v => st v = failed) l -> ~ Forall (fun v => st v = passed) l.
Proof.
  intros Hne Hf Hp. destruct l as [|x l]; [congruence|].
  inversion Hf as [|? ? Hx _]; inversion Hp as [|? ? Hx' _]; subst. congruence.
Qed.

(** C5: when no step of the case matches an assertion of the execution,
    the status of every step verdict is "failed", and the overall status is
    "failed" when there is at least one step and "passed" when there is
    none (src/submit_collection_results_to_qase.js and part_000). *)
Theorem C5_unmatched_steps_policy (exec : Execution) (caseId : N) (qaseSteps : list CaseStep) :
  Forall (fun step =>
            Forall (fun a => Some (name a) <> unescapeMarkdown (expected_result step))
                   (assertions exec)) qaseSteps ->
  Forall (fun v => sr_status v = failed)
         (rb_steps (PerCase.resultBody exec caseId qaseSteps))
  /\ ((0 < length qaseSteps)%nat ->
      status (PerCase.resultBody exec caseId qaseSteps) = failed)
  /\ (length qaseSteps = 0%nat ->
      status (PerCase.resultBody exec caseId qaseSteps) = passed)
  /\ Forall (fun v => se_status (v2_execution v) = failed)
            (tc_steps (Batch.tcResult exec caseId qaseSteps))
  /\ ((0 < length qaseSteps)%nat ->
      te_status (tc_execution (Batch.tcResult exec caseId qaseSteps)) = failed)
  /\ (length qaseSteps = 0%nat ->
      te_status (tc_execution (Batch.tcResult exec caseId qaseSteps)) = passed).
Proof.
  intros Hnone.
  assert (Hfind : Forall (fun step => PerCase.assertion exec step = None) qaseSteps).
  { eapply Forall_impl; [exact Hnone|]. intros step H. apply find_none_named, H. }
  pose proof (PerCase_unmatched_steps_fail exec qaseSteps Hfind) as HP.
  pose proof (Batch_unmatched_steps_fail exec qaseSteps Hfind) as HB.
  pose proof (proj2 (status_failed_iff _ _ (PerCase_status_passed_iff exec caseId qaseSteps))) as HPf.
  pose proof (proj2 (status_failed_iff _ _ (Batch_status_passed_iff exec caseId qaseSteps))) as HBf.
  repeat split.
  - exact HP.
  - intros Hlen. apply HPf. apply not_all_passed_when_all_failed; [|exact HP].
    intros Hnil. apply (f_equal length) in Hnil.
    unfold PerCase.stepsQase in Hnil.
    rewrite length_imap in Hnil. simpl in Hnil. lia.
  - intros Hlen. destruct qaseSteps; [reflexivity | discriminate Hlen].
  - exact HB.
  - intros Hlen. apply HBf. apply not_all_passed_when_all_failed; [|exact HB].
    intros Hnil. apply (f_equal length) in Hnil.
    unfold Batch.stepsQase in Hnil.
    rewrite length_imap in Hnil. simpl in Hnil. lia.
  - intros Hlen. destruct qaseSteps; [reflexivity | discriminate Hlen].
Qed.

Lemma C5_unmatched_steps_policy_witness :
  let exec := named "Login Qase:501"
                [ {| name := "Status code is 200"; error := None |} ] in
  let step := {| position := Some 1; action := Some "Send request";
                 expected_result := Some "Body has token" |} in
  status (PerCase.resultBody exec 501 [step]) = failed
  /\ te_status (tc_execution (Batch.tcResult exec 501 [step])) = failed.
Proof.
  cbv zeta.
  pose proof (C5_unmatched_steps_policy
    (named "Login Qase:501" [ {| name := "Status code is 200"; error := None |} ])
    501
    [ {| position := Some 1; action := Some "Send request";
         expected_result := Some "Body has token" |} ]) as H.
  destruct H as (_ & HP & _ & _ & HB & _).
  - repeat constructor; simpl; discriminate.
  - split; [apply HP | apply HB]; simpl; lia.
Defined.

(** ** Positions *)




(** ** The comment *)

(** C8: the comment of a submitted result is the newline-joined list of one
    line per assertion of the execution, in assertion order, whatever the
    steps of the case are: the check mark and the name for an assertion
    without error, the cross, the name and the message of the error for an
    assertion with an error. *)
Theorem C8_comment_lists_every_assertion (exec : Execution) :
  exists lines : list string,
    length lines = length (assertions exec)
    /\ (forall i a, assertions exec !! i = Some a ->
          lines !! i = Some (match error a with
                             | None => "✅ " +:+ name a
                             | Some e => "❌ " +:+ name a +:+ ": " +:+ message e
                             end))
    /\ (forall caseId qaseSteps,
          comment (PerCase.resultBody exec caseId qaseSteps) = String.concat newline lines
          /\ comment (Legacy.resultBody exec caseId qaseSteps) = String.concat newline lines
          /\ description (tc_fields (Batch.tcResult exec caseId qaseSteps))
             = String.concat newline lines).
Proof.
  exists (map commentLine (assertions exec)). split; [apply length_map|]. split.
  - intros i a Hi. change (map commentLine (assertions exec))
      with (commentLine <$> assertions exec).
    rewrite list_lookup_fmap, Hi. cbn. unfold commentLine.
    destruct (error a); reflexivity.
  - intros caseId qaseSteps. repeat split; reflexivity.
Qed.

(** ** Fetching the steps of a case *)

Lemma getCaseSteps_replied remote caseId h r :
  caseReply remote (h ++ [GetCase caseId]) = Some r ->
  getCaseSteps remote caseId h = (Done (default [] (steps r)), h ++ [GetCase caseId]).
Proof. intros H. unfold getCaseSteps, bind, request, ret. rewrite H. reflexivity. Qed.

(** C7: [getCaseSteps] sends one request for the case and returns the steps
    of the reply in their order; when the reply has no [steps] field, or an
    empty one, it returns the empty sequence and does not throw. *)
Theorem C7_getCaseSteps_returns_reported_steps
    (remote : Remote) (caseId : N) (h : list Request) (r : CaseResult) :
  caseReply remote (h ++ [GetCase caseId]) = Some r ->
  (forall l, steps r = Some l ->
     getCaseSteps remote caseId h = (Done l, h ++ [GetCase caseId]))
  /\ (steps r = Some [] ->
      getCaseSteps remote caseId h = (Done [], h ++ [GetCase caseId]))
  /\ (steps r = None ->
      getCaseSteps remote caseId h = (Done [], h ++ [GetCase caseId])).
Proof.
  intros H. rewrite (getCaseSteps_replied _ _ _ _ H).
  repeat split; intros; match goal with Hs : steps r = _ |- _ => rewrite Hs end;
    reflexivity.
Qed.

Lemma C7_getCaseSteps_returns_reported_steps_witness :
  let step := {| position := Some 1; action := Some "Send request";
                 expected_result := Some "Status code is 200" |} in
  getCaseSteps (constantRemote None (Some {| steps := Some [step] |}) false) 501 []
  = (Done [step], [GetCase 501])
  /\ getCaseSteps (constantRemote None (Some {| steps := None |}) false) 501 []
     = (Done [], [GetCase 501]).
Proof.
  cbv zeta. split.
  - apply (proj1 (C7_getCaseSteps_returns_reported_steps
                    (constantRemote None (Some {| steps := Some _ |}) false) 501 []
                    _ eq_refl)).
    reflexivity.
  - apply (proj2 (proj2 (C7_getCaseSteps_returns_reported_steps
                    (constantRemote None (Some {| steps := None |}) false) 501 []
                    _ eq_refl))).
    reflexivity.
Defined.

(** ** The case ids of a run *)

Lemma existsb_eqb_elem (x : N) (l : list N) : existsb (N.eqb x) l = true <-> x ∈ l.
Proof.
  induction l as [|y l IH]; simpl.
  - split; [discriminate | intros H; inversion H].
  - rewrite orb_true_iff, IH, N.eqb_eq, elem_of_cons. reflexivity.
Qed.

Lemma elem_of_setAdd acc x y : y ∈ setAdd acc x <-> y ∈ acc \/ y = x.
Proof.
  unfold setAdd. destruct (existsb (N.eqb x) acc) eqn:Hx.
  - apply existsb_eqb_elem in Hx. split; [auto | intros [H | ->]; assumption].
  - rewrite elem_of_app, list_elem_of_singleton. reflexivity.
Qed.

Lemma NoDup_setAdd acc x : NoDup acc -> NoDup (setAdd acc x).
Proof.
  intros Hacc. unfold setAdd. destruct (existsb (N.eqb x) acc) eqn:Hx; [exact Hacc|].
  apply NoDup_app. split; [exact Hacc|]. split; [|apply NoDup_singleton].
  intros y Hy Hyx. apply list_elem_of_singleton in Hyx as ->.
  apply existsb_eqb_elem in Hy. congruence.
Qed.

Lemma NoDup_fold_setAdd l acc : NoDup acc -> NoDup (fold_left setAdd l acc).
Proof.
  revert acc; induction l as [|x l IH]; intros acc Hacc; simpl; [exact Hacc|].
  apply IH, NoDup_setAdd, Hacc.
Qed.

Lemma elem_of_fold_setAdd l acc y :
  y ∈ fold_left setAdd l acc <-> y ∈ acc \/ y ∈ l.
Proof.
  revert acc; induction l as [|x l IH]; intros acc; simpl.
  - split; [auto | intros [H | H]; [exact H | inversion H]].
  - rewrite IH, elem_of_setAdd, elem_of_cons. tauto.
Qed.

Lemma NoDup_spreadSet l : NoDup (spreadSet l).
Proof. apply NoDup_fold_setAdd, NoDup_nil_2. Qed.

Lemma elem_of_spreadSet l y : y ∈ spreadSet l <-> y ∈ l.
Proof.
  unfold spreadSet. rewrite elem_of_fold_setAdd. split; [|auto].
  intros [H | H]; [inversion H | exact H].
Qed.

Lemma elem_of_filterBoolean l n : n ∈ filterBoolean l <-> n <> 0 /\ Some n ∈ l.
Proof.
  induction l as [|v l IH]; simpl.
  - split; [intros H; inversion H | intros [_ H]; inversion H].
  - rewrite elem_of_app, IH, elem_of_cons. destruct v as [m|].
    + destruct (m =? 0) eqn:Hm.
      * apply N.eqb_eq in Hm as ->. split.
        -- intros [H | H]; [inversion H | tauto].
        -- intros [Hn [H | H]]; [congruence | tauto].
      * apply N.eqb_neq in Hm. rewrite list_elem_of_singleton. split.
        -- intros [-> | H]; [auto | tauto].
        -- intros [Hn [[= ->] | H]]; [auto | tauto].
    + split.
      * intros [H | H]; [inversion H | tauto].
      * intros [Hn [H | H]]; [discriminate H | tauto].
Qed.

(** The case ids of a run are the non-zero ids some execution refers to. *)
Lemma elem_of_caseIdsWith ignoreCase execs id :
  id ∈ caseIdsWith ignoreCase execs
  <-> id <> 0 /\ exists e, e ∈ execs /\ caseIdOf ignoreCase e = Some id.
Proof.
  unfold caseIdsWith. rewrite elem_of_spreadSet, elem_of_filterBoolean.
  change (map (caseIdOf ignoreCase) execs) with (caseIdOf ignoreCase <$> execs).
  rewrite list_elem_of_fmap. split.
  - intros [Hid (e & He & Hin)]. eauto.
  - intros [Hid (e & Hin & He)]. eauto.
Qed.

Lemma count_occ_caseIdsWith ignoreCase execs e id :
  e ∈ execs -> caseIdOf ignoreCase e = Some id -> 0 < id ->
  count_occ N.eq_dec (caseIdsWith ignoreCase execs) id = 1%nat.
Proof.
  intros Hin He Hid.
  apply NoDup_count_occ'; [apply NoDup_ListNoDup, NoDup_spreadSet|].
  apply list_elem_of_In, elem_of_caseIdsWith. split; [lia | eauto].
Qed.

(** C6: the list of case ids given to the creation of the run has no
    duplicates, and a case id that executions of the report refer to, however
    many of them, has exactly one entry in it. *)
Theorem C6_case_ids_deduplicated (execs : list Execution) :
  NoDup (PerCase.caseIds execs)
  /\ NoDup (Legacy.caseIds execs)
  /\ NoDup (Batch.caseIds execs)
  /\ (forall e1 e2 id,
        e1 ∈ execs -> e2 ∈ execs -> 0 < id ->
        caseIdOf false e1 = Some id -> caseIdOf false e2 = Some id ->
        count_occ N.eq_dec (PerCase.caseIds execs) id = 1%nat
        /\ count_occ N.eq_dec (Legacy.caseIds execs) id = 1%nat)
  /\ (forall e1 e2 id,
        e1 ∈ execs -> e2 ∈ execs -> 0 < id ->
        caseIdOf true e1 = Some id -> caseIdOf true e2 = Some id ->
        count_occ N.eq_dec (Batch.caseIds execs) id = 1%nat).
Proof.
  split; [apply NoDup_spreadSet|]. split; [apply NoDup_spreadSet|].
  split; [apply NoDup_spreadSet|]. split.
  - intros e1 e2 id H1 _ Hid He1 _.
    split; apply (count_occ_caseIdsWith false execs e1 id H1 He1 Hid).
  - intros e1 e2 id H1 _ Hid He1 _.
    apply (count_occ_caseIdsWith true execs e1 id H1 He1 Hid).
Qed.

Lemma C6_case_ids_deduplicated_witness :
  let execs := [ named "Login Qase:501" []; named "Logout"  [];
                 named "Login again Qase:501" []; named "List Qase:7" [] ] in
  count_occ N.eq_dec (PerCase.caseIds execs) 501 = 1%nat
  /\ count_occ N.eq_dec (Legacy.caseIds execs) 501 = 1%nat.
Proof.
  cbv zeta.
  apply (proj1 (proj2 (proj2 (proj2 (C6_case_ids_deduplicated
           [ named "Login Qase:501" []; named "Logout"  [];
             named "Login again Qase:501" []; named "List Qase:7" [] ]))))
         (named "Login Qase:501" []) (named "Login again Qase:501" []) 501).
  - apply list_elem_of_In. simpl. auto.
  - apply list_elem_of_In. simpl. auto 6.
  - lia.
  - reflexivity.
  - reflexivity.
Defined.

(** ** The submission loop *)

Lemma zero_not_in_caseIdsWith ignoreCase execs : 0 ∉ caseIdsWith ignoreCase execs.
Proof. rewrite elem_of_caseIdsWith. intros [H _]. congruence. Qed.

Lemma request_replied {A} (reply : list Request -> option A) r h a :
  reply (h ++ [r]) = Some a -> request reply r h = (Done a, h ++ [r]).
Proof. intros H. unfold request. rewrite H. reflexivity. Qed.

Lemma bind_done {A B} (m : IO A) (k : A -> IO B) h a h' :
  m h = (Done a, h') -> bind m k h = k a h'.
Proof. intros H. unfold bind. rewrite H. reflexivity. Qed.

Lemma getCaseSteps_succeeds remote caseId h :
  alwaysSucceeds remote ->
  exists qaseSteps,
    getCaseSteps remote caseId h = (Done qaseSteps, h ++ [GetCase caseId]).
Proof.
  intros Hok. destruct (Hok (h ++ [GetCase caseId])) as (_ & [r Hr] & _).
  eexists. apply getCaseSteps_replied, Hr.
Qed.

Lemma post_succeeds remote r h :
  alwaysSucceeds remote ->
  request (accepted (resultReply remote)) r h = (Done tt, h ++ [r]).
Proof.
  intros Hok. apply request_replied. unfold accepted.
  destruct (Hok (h ++ [r])) as (_ & _ & ->). reflexivity.
Qed.

(** With a service that answers every request, the loop of the per-case
    script completes and has posted a result for every execution whose name
    matches the pattern. *)
Lemma PerCase_submitResults_succeeds remote runId execs :
  alwaysSucceeds remote ->
  forall h, exists h',
    PerCase.submitResults remote runId execs h = (Done tt, h ++ h')
    /\ forall e id, e ∈ execs -> caseIdOf false e = Some id ->
         exists qaseSteps, PostResult runId (PerCase.resultBody e id qaseSteps) ∈ h'.
Proof.
  intros Hok. induction execs as [|exec rest IH]; intros h.
  - exists []. rewrite app_nil_r. split; [reflexivity|].
    intros e id He. inversion He.
  - cbn [PerCase.submitResults].
    destruct (matchQase false (exec_name exec)) as [digits|] eqn:Hm.
    + destruct (getCaseSteps_succeeds remote (parseInt digits) h Hok) as [qaseSteps Hg].
      rewrite (bind_done _ _ _ _ _ Hg).
      rewrite (bind_done _ _ _ _ _ (post_succeeds remote _ _ Hok)).
      destruct (IH ((h ++ [GetCase (parseInt digits)])
                      ++ [PostResult runId (PerCase.resultBody exec (parseInt digits) qaseSteps)]))
        as (h' & Hrun & Hposted).
      exists ([GetCase (parseInt digits);
               PostResult runId (PerCase.resultBody exec (parseInt digits) qaseSteps)] ++ h').
      split.
      * rewrite Hrun. f_equal. rewrite <- !app_assoc. reflexivity.
      * intros e id He Hid. apply elem_of_cons in He as [-> | He].
        -- unfold caseIdOf in Hid. rewrite Hm in Hid. injection Hid as <-.
           exists qaseSteps. apply elem_of_app. left.
           apply elem_of_cons. right. apply elem_of_cons. left. reflexivity.
        -- destruct (Hposted e id He Hid) as [qs Hqs].
           exists qs. apply elem_of_app. right. exact Hqs.
    + destruct (IH h) as (h' & Hrun & Hposted). exists h'. split; [exact Hrun|].
      intros e id He Hid. apply elem_of_cons in He as [-> | He].
      * unfold caseIdOf in Hid. rewrite Hm in Hid. discriminate Hid.
      * apply (Hposted e id He Hid).
Qed.

(** The loop of the batch script likewise completes, with an element of
    [tc_results] for every execution whose name matches the pattern. *)
Lemma Batch_collectResults_succeeds remote execs :
  alwaysSucceeds remote ->
  forall tc_results h, exists results h',
    Batch.collectResults remote execs tc_results h = (Done (tc_results ++ results), h ++ h')
    /\ forall e id, e ∈ execs -> caseIdOf true e = Some id ->
         exists qaseSteps, Batch.tcResult e id qaseSteps ∈ results.
Proof.
  intros Hok. induction execs as [|exec rest IH]; intros tc_results h.
  - exists [], []. rewrite !app_nil_r. split; [reflexivity|].
    intros e id He. inversion He.
  - cbn [Batch.collectResults].
    destruct (matchQase true (exec_name exec)) as [digits|] eqn:Hm.
    + destruct (getCaseSteps_succeeds remote (parseInt digits) h Hok) as [qaseSteps Hg].
      rewrite (bind_done _ _ _ _ _ Hg).
      destruct (IH (tc_results ++ [Batch.tcResult exec (parseInt digits) qaseSteps])
                   (h ++ [GetCase (parseInt digits)]))
        as (results & h' & Hrun & Hposted).
      exists (Batch.tcResult exec (parseInt digits) qaseSteps :: results),
             (GetCase (parseInt digits) :: h').
      split.
      * rewrite Hrun. f_equal; rewrite <- !app_assoc; reflexivity.
      * intros e id He Hid. apply elem_of_cons in He as [-> | He].
        -- unfold caseIdOf in Hid. rewrite Hm in Hid. injection Hid as <-.
           exists qaseSteps. apply elem_of_cons. left. reflexivity.
        -- destruct (Hposted e id He Hid) as [qs Hqs].
           exists qs. apply elem_of_cons. right. exact Hqs.
    + destruct (IH tc_results h) as (results & h' & Hrun & Hposted).
      exists results, h'. split; [exact Hrun|].
      intros e id He Hid. apply elem_of_cons in He as [-> | He].
      * unfold caseIdOf in Hid. rewrite Hm in Hid. discriminate Hid.
      * apply (Hposted e id He Hid).
Qed.

Lemma createTestRun_succeeds remote run_title caseIds :
  alwaysSucceeds remote ->
  exists runId,
    createTestRun remote run_title caseIds [] = (Done runId, [PostRun run_title caseIds]).
Proof.
  intros Hok. destruct (Hok [PostRun run_title caseIds]) as ([runId Hr] & _).
  exists runId. apply (request_replied (runReply remote) _ [] _ Hr).
Qed.

(** C9: an execution whose name matches the pattern with the number 0 has
    its case id left out of the case list of the created run, yet the
    submission loop does not skip it: when the requests succeed, a result
    with case id 0 is submitted to the run
    (src/submit_collection_results_to_qase.js and part_000). *)
Theorem C9_case_zero_left_out_of_run_but_submitted
    (remote : Remote) (test_run_tag : string) (execs : list Execution) (e : Execution) :
  alwaysSucceeds remote -> e ∈ execs ->
  (caseIdOf false e = Some 0 ->
     (0 ∉ PerCase.caseIds execs)
     /\ exists runId h body,
          PerCase.main remote test_run_tag execs []
          = (Done tt, PostRun test_run_tag (PerCase.caseIds execs) :: h)
          /\ PostResult runId body ∈ h
          /\ case_id body = 0)
  /\ (caseIdOf true e = Some 0 ->
      (0 ∉ Batch.caseIds execs)
      /\ exists runId h results r,
           Batch.main remote test_run_tag execs []
           = (Done tt, PostRun test_run_tag (Batch.caseIds execs) :: h
                         ++ [PostResults runId results])
           /\ r ∈ results
           /\ testops_id r = 0).
Proof.
  intros Hok Hin. split; intros He; (split; [apply zero_not_in_caseIdsWith|]).
  - destruct (createTestRun_succeeds remote test_run_tag (PerCase.caseIds execs) Hok)
      as [runId Hrun].
    destruct (PerCase_submitResults_succeeds remote runId execs Hok
                [PostRun test_run_tag (PerCase.caseIds execs)])
      as (h & Hsub & Hposted).
    destruct (Hposted e 0 Hin He) as [qaseSteps Hbody].
    exists runId, h, (PerCase.resultBody e 0 qaseSteps).
    split; [|split; [exact Hbody | reflexivity]].
    unfold PerCase.main. rewrite (bind_done _ _ _ _ _ Hrun). exact Hsub.
  - destruct (createTestRun_succeeds remote test_run_tag (Batch.caseIds execs) Hok)
      as [runId Hrun].
    destruct (Batch_collectResults_succeeds remote execs Hok []
                [PostRun test_run_tag (Batch.caseIds execs)])
      as (results & h & Hcol & Hposted).
    destruct (Hposted e 0 Hin He) as [qaseSteps Hr].
    exists runId, h, results, (Batch.tcResult e 0 qaseSteps).
    split; [|split; [exact Hr | reflexivity]].
    unfold Batch.main, Batch.submitResults.
    rewrite (bind_done _ _ _ _ _ Hrun), (bind_done _ _ _ _ _ Hcol).
    rewrite (post_succeeds remote _ _ Hok). reflexivity.
Qed.

Lemma constantRemote_succeeds runId case :
  alwaysSucceeds (constantRemote (Some runId) (Some case) true).
Proof. intros h. repeat split; eexists; reflexivity. Defined.

Lemma C9_case_zero_left_out_of_run_but_submitted_witness :
  let remote := constantRemote (Some 9) (Some {| steps := None |}) true in
  let execs := [ named "Login Qase:501" []; named "Ping Qase:0" [] ] in
  PerCase.caseIds execs = [501]
  /\ (0 ∉ PerCase.caseIds execs)
  /\ exists runId h body,
       PerCase.main remote "Local Run" execs []
       = (Done tt, PostRun "Local Run" (PerCase.caseIds execs) :: h)
       /\ PostResult runId body ∈ h
       /\ case_id body = 0.
Proof.
  cbv zeta. split; [reflexivity|].
  apply (proj1 (C9_case_zero_left_out_of_run_but_submitted
                  (constantRemote (Some 9) (Some {| steps := None |}) true)
                  "Local Run"
                  [ named "Login Qase:501" []; named "Ping Qase:0" [] ]
                  (named "Ping Qase:0" [])
                  (constantRemote_succeeds 9 {| steps := None |})
                  ltac:(apply list_elem_of_In; simpl; auto))).
  reflexivity.
Defined.

(** ** The scenarios of the specification *)

Example scenario_login_passed :
  let exec := named "Login Qase:501" [ {| name := "Status code is 200"; error := None |} ] in
  let step := {| position := Some 1; action := Some "Send request";
                 expected_result := Some "Status code is 200" |} in
  let remote := constantRemote (Some 9) (Some {| steps := Some [step] |}) true in
  PerCase.main remote "Local Run" [exec] []
  = (Done tt,
     [ PostRun "Local Run" [501];
       GetCase 501;
       PostResult 9
         {| case_id := 501; status := passed; comment := "✅ Status code is 200";
            rb_steps := [ {| sr_position := 1; sr_action := Some "Send request";
                             sr_expected_result := "Status code is 200";
                             sr_status := passed |} ] |} ]).
Proof. reflexivity. Qed.

Example scenario_login_failed :
  let exec := named "Login Qase:501"
                [ {| name := "Status code is 200";
                     error := Some {| message := "expected 200 got 500" |} |} ] in
  let step := {| position := Some 1; action := Some "Send request";
                 expected_result := Some "Status code is 200" |} in
  status (PerCase.resultBody exec 501 [step]) = failed
  /\ comment (PerCase.resultBody exec 501 [step])
     = "❌ Status code is 200: expected 200 got 500".
Proof. split; reflexivity. Qed.

Example scenario_without_token :
  forall remote runId h,
    PerCase.caseIds [named "Health check" []] = []
    /\ PerCase.submitResults remote runId [named "Health check" []] h = (Done tt, h).
Proof. intros. split; reflexivity. Qed.

Example scenario_remote_failure :
  let remote := constantRemote (Some 9) None true in
  PerCase.main remote "Local Run" [named "Login Qase:501" []; named "List Qase:7" []] []
  = (Thrown, [PostRun "Local Run" [501; 7]; GetCase 501]).
Proof. reflexivity. Qed.

Example parseInt_leading_zero : parseInt "0501" = 501.
Proof. reflexivity. Qed.

Example replaceEscapes_scan : replaceEscapes "a\*b\\*c\" = "a*b\*c\".
Proof. reflexivity. Qed.

Example matchQase_leftmost : matchQase true "Login qAse:501x Qase:3" = Some "501".
Proof. reflexivity. Qed.

(** * Further properties of the scripts *)

(** ** The pattern and [parseInt] *)

Lemma isDigits_takeDigits s : isDigits (takeDigits s) = true.
Proof.
  induction s as [|c s IH]; [reflexivity|]. simpl.
  destruct (isDigit c) eqn:Hc; [|reflexivity]. simpl. rewrite Hc. exact IH.
Qed.

Lemma matchQaseAt_digits ignoreCase s d :
  matchQaseAt ignoreCase s = Some d -> d <> EmptyString /\ isDigits d = true.
Proof.
  unfold matchQaseAt. destruct (matchLiteral ignoreCase "Qase:" s) as [rest|]; [|discriminate].
  pose proof (isDigits_takeDigits rest) as Hd.
  destruct (takeDigits rest) as [|c t]; [discriminate|].
  intros [= <-]. split; [discriminate | exact Hd].
Qed.

(** X1: whatever the name and the flag, the captured group handed to
    [parseInt] is a non-empty string of decimal digits. *)
Theorem X1_capture_is_nonempty_digits (ignoreCase : bool) (nm d : string) :
  matchQase ignoreCase nm = Some d -> d <> EmptyString /\ isDigits d = true.
Proof.
  induction nm as [|c nm IH]; unfold matchQase; fold matchQase.
  - destruct (matchQaseAt ignoreCase "") as [d'|] eqn:Hat; [|discriminate].
    intros [= <-]. apply (matchQaseAt_digits _ _ _ Hat).
  - destruct (matchQaseAt ignoreCase (String c nm)) as [d'|] eqn:Hat; [|exact IH].
    intros [= <-]. apply (matchQaseAt_digits _ _ _ Hat).
Qed.

Lemma X1_capture_is_nonempty_digits_witness :
  "0501" <> EmptyString /\ isDigits "0501" = true.
Proof. apply (X1_capture_is_nonempty_digits true "Login qase:0501b" "0501"). reflexivity. Defined.

Lemma takeDigits_app d q :
  isDigits d = true -> noLeadingDigit q = true -> takeDigits (d +:+ q) = d.
Proof.
  intros Hd Hq. induction d as [|c d IH]; simpl.
  - destruct q as [|c q]; [reflexivity|]. simpl in *.
    destruct (isDigit c); [discriminate Hq | reflexivity].
  - simpl in Hd. apply andb_true_iff in Hd as [Hc Hd]. rewrite Hc, (IH Hd). reflexivity.
Qed.

Lemma matchQaseAt_token ignoreCase d q :
  isDigits d = true -> d <> EmptyString -> noLeadingDigit q = true ->
  matchQaseAt ignoreCase ("Qase:" +:+ d +:+ q) = Some d.
Proof.
  intros Hd Hne Hq. unfold matchQaseAt.
  replace (matchLiteral ignoreCase "Qase:" ("Qase:" +:+ d +:+ q)) with (Some (d +:+ q))
    by (destruct ignoreCase; reflexivity).
  rewrite (takeDigits_app _ _ Hd Hq). destruct d; [congruence | reflexivity].
Qed.

Lemma toUpperCase_Q c : toUpperCase c = "Q"%char -> c = "Q"%char \/ c = "q"%char.
Proof.
  destruct c as [[] [] [] [] [] [] [] []]; cbv; intros H;
    first [discriminate H | left; reflexivity | right; reflexivity].
Qed.

Lemma matchQaseAt_other_start ignoreCase c s :
  Ascii.eqb "Q" c = false -> (ignoreCase = true -> Ascii.eqb "q" c = false) ->
  matchQaseAt ignoreCase (String c s) = None.
Proof.
  intros HQ Hq. unfold matchQaseAt. cbn [matchLiteral].
  replace (charMatches ignoreCase "Q" c) with false; [reflexivity|].
  destruct ignoreCase; cbn [charMatches]; [|symmetry; exact HQ].
  symmetry. apply Ascii.eqb_neq. intros H. change (toUpperCase "Q") with "Q"%char in H.
  symmetry in H. apply toUpperCase_Q in H as [-> | ->].
  - discriminate HQ.
  - specialize (Hq eq_refl). discriminate Hq.
Qed.

(** X2: the token is found wherever it stands in the name: after a prefix
    without the letter Q (in either case under the [i] flag), [Qase:]
    followed by digits and then by something that is not a digit yields
    exactly these digits. *)
Theorem X2_token_found_after_prefix (ignoreCase : bool) (p d q : string) :
  mentions "Q" p = false ->
  (ignoreCase = true -> mentions "q" p = false) ->
  isDigits d = true -> d <> EmptyString -> noLeadingDigit q = true ->
  matchQase ignoreCase (p +:+ "Qase:" +:+ d +:+ q) = Some d
  /\ caseIdOf ignoreCase (named (p +:+ "Qase:" +:+ d +:+ q) []) = Some (parseInt d).
Proof.
  intros HQ Hq Hd Hne Hnd.
  assert (Hm : matchQase ignoreCase (p +:+ "Qase:" +:+ d +:+ q) = Some d).
  { induction p as [|c p IH].
    - change ("" +:+ "Qase:" +:+ d +:+ q) with ("Qase:" +:+ d +:+ q).
      pose proof (matchQaseAt_token ignoreCase d q Hd Hne Hnd) as Hat.
      change ("Qase:" +:+ d +:+ q) with (String "Q" ("ase:" +:+ d +:+ q)) in *.
      unfold matchQase; fold matchQase. rewrite Hat. reflexivity.
    - cbn [mentions] in HQ. apply orb_false_iff in HQ as [HQc HQp].
      change (String c p +:+ "Qase:" +:+ d +:+ q)
        with (String c (p +:+ "Qase:" +:+ d +:+ q)).
      unfold matchQase; fold matchQase.
      rewrite matchQaseAt_other_start.
      + apply IH; [exact HQp|]. intros Hi. specialize (Hq Hi).
        cbn [mentions] in Hq. apply orb_false_iff in Hq as [_ Hq]. exact Hq.
      + exact HQc.
      + intros Hi. specialize (Hq Hi). cbn [mentions] in Hq.
        apply orb_false_iff in Hq as [Hq _]. exact Hq. }
  split; [exact Hm|]. unfold caseIdOf, named. cbn [exec_name]. rewrite Hm. reflexivity.
Qed.

Lemma X2_token_found_after_prefix_witness :
  matchQase true ("Login " +:+ "Qase:" +:+ "501" +:+ " (smoke)") = Some "501"
  /\ caseIdOf true (named ("Login " +:+ "Qase:" +:+ "501" +:+ " (smoke)") []) = Some (parseInt "501").
Proof.
  apply (X2_token_found_after_prefix true "Login " "501" " (smoke)");
    first [reflexivity | discriminate].
Defined.

Lemma ascii_eqb_zero c : Ascii.eqb c "0" = (N_of_ascii c =? 48).
Proof. destruct c as [[] [] [] [] [] [] [] []]; reflexivity. Qed.

Lemma isDigit_bounds c : isDigit c = true -> 48 <= N_of_ascii c.
Proof. unfold isDigit. intros H. apply andb_true_iff in H as [H _]. apply N.leb_le, H. Qed.

Lemma parseDigits_zero d : forall acc,
  isDigits d = true -> (parseDigits acc d = 0 <-> acc = 0 /\ isZeros d = true).
Proof.
  induction d as [|c d IH]; intros acc Hd; simpl.
  - split; [auto | intros [H _]; exact H].
  - simpl in Hd. apply andb_true_iff in Hd as [Hc Hd].
    apply isDigit_bounds in Hc.
    rewrite (IH _ Hd), ascii_eqb_zero, andb_true_iff, N.eqb_eq. split.
    + intros [H Hz]. repeat split; [lia | lia | exact Hz].
    + intros [-> [Hc0 Hz]]. split; [lia | exact Hz].
Qed.

(** X3: on a string of digits [parseInt] gives 0 exactly when every digit is
    a zero, so that these are the captures [filter(Boolean)] drops. *)
Theorem X3_parseInt_zero_iff_all_zeros (d : string) :
  isDigits d = true -> (parseInt d = 0 <-> isZeros d = true).
Proof.
  intros Hd. unfold parseInt. rewrite (parseDigits_zero d 0 Hd). tauto.
Qed.

Lemma X3_parseInt_zero_iff_all_zeros_witness :
  parseInt "000" = 0 <-> isZeros "000" = true.
Proof. apply (X3_parseInt_zero_iff_all_zeros "000"). reflexivity. Defined.

(** ** The case list of the run *)

(** X4: the case list of the created run holds exactly the non-zero case ids
    that the name of some execution refers to, in each of the three
    scripts. *)
Theorem X4_case_list_membership (execs : list Execution) (id : N) :
  (id ∈ PerCase.caseIds execs
   <-> id <> 0 /\ exists e, e ∈ execs /\ caseIdOf false e = Some id)
  /\ (id ∈ Legacy.caseIds execs
      <-> id <> 0 /\ exists e, e ∈ execs /\ caseIdOf false e = Some id)
  /\ (id ∈ Batch.caseIds execs
      <-> id <> 0 /\ exists e, e ∈ execs /\ caseIdOf true e = Some id).
Proof.
  split; [|split].
  - apply (elem_of_caseIdsWith false).
  - apply (elem_of_caseIdsWith false).
  - apply (elem_of_caseIdsWith true).
Qed.

Lemma fold_setAdd_extends l : forall acc, acc `prefix_of` fold_left setAdd l acc.
Proof.
  induction l as [|x l IH]; intros acc; simpl; [reflexivity|].
  transitivity (setAdd acc x); [|apply IH].
  unfold setAdd. destruct (existsb (N.eqb x) acc); [reflexivity|].
  apply prefix_app_r. reflexivity.
Qed.

Lemma caseIdsWith_app ignoreCase execs1 execs2 :
  caseIdsWith ignoreCase execs1 `prefix_of` caseIdsWith ignoreCase (execs1 ++ execs2).
Proof.
  unfold caseIdsWith, spreadSet, filterBoolean.
  rewrite map_app, flat_map_app, fold_left_app. apply fold_setAdd_extends.
Qed.

(** X5: the case list is in first-seen order: the list computed from the
    first executions of a report is a prefix of the list computed from the
    whole report. *)
Theorem X5_case_list_first_seen_order (execs1 execs2 : list Execution) :
  PerCase.caseIds execs1 `prefix_of` PerCase.caseIds (execs1 ++ execs2)
  /\ Legacy.caseIds execs1 `prefix_of` Legacy.caseIds (execs1 ++ execs2)
  /\ Batch.caseIds execs1 `prefix_of` Batch.caseIds (execs1 ++ execs2).
Proof. repeat split; apply caseIdsWith_app. Qed.

(** ** Unescaping and escaping *)

(** X6: [unescapeMarkdown] never lengthens a text, and shortens every text
    that holds an escape. *)
Theorem X6_unescape_never_lengthens (s : string) :
  exists t, unescapeMarkdown (Some s) = Some t
    /\ (String.length t <= String.length s)%nat
    /\ (hasEscape s = true -> (String.length t < String.length s)%nat).
Proof.
  exists (replaceEscapes s). split; [apply unescapeMarkdown_Some|].
  apply (replaceEscapes_length (String.length s)). lia.
Qed.

Lemma special_is_not_plain c : isMarkdownSpecial c = false -> Ascii.eqb c "\" = false.
Proof.
  intros H. destruct (Ascii.eqb c "\") eqn:Hc; [|reflexivity].
  apply Ascii.eqb_eq in Hc as ->. discriminate H.
Qed.

Lemma replaceEscapes_escapeMarkdown s : replaceEscapes (escapeMarkdown s) = s.
Proof.
  induction s as [|c s IH]; [reflexivity|]. cbn [escapeMarkdown].
  destruct (isMarkdownSpecial c) eqn:Hc.
  - rewrite replaceEscapes_pair, Hc. cbn. rewrite IH. reflexivity.
  - rewrite (replaceEscapes_plain _ _ (special_is_not_plain _ Hc)), IH. reflexivity.
Qed.

(** X7: unescaping undoes escaping: a text in which every character of the
    class has been given a backslash is turned back into the text. *)
Theorem X7_unescape_undoes_escape (s : string) :
  unescapeMarkdown (Some (escapeMarkdown s)) = Some s.
Proof. rewrite unescapeMarkdown_Some, replaceEscapes_escapeMarkdown. reflexivity. Qed.

(** ** More on the aggregation *)

Lemma verdict_passed_iff (o : option Assertion) :
  verdict o = passed <-> exists a, o = Some a /\ error a = None.
Proof.
  destruct o as [a|]; simpl.
  - destruct (error a) eqn:He; simpl; split.
    + discriminate.
    + intros (a' & [= <-] & H). congruence.
    + intros _. eauto.
    + reflexivity.
  - split; [discriminate | intros (a & H & _); discriminate H].
Qed.

Lemma PerCase_steps_passed_iff exec qaseSteps :
  Forall (fun v => sr_status v = passed) (PerCase.stepsQase exec qaseSteps)
  <-> Forall (fun step => exists a, PerCase.assertion exec step = Some a /\ error a = None)
             qaseSteps.
Proof.
  rewrite !Forall_lookup. unfold PerCase.stepsQase. split.
  - intros H i step Hi. apply verdict_passed_iff.
    apply (H i (PerCase.stepResult exec i step)).
    rewrite list_lookup_imap, Hi. reflexivity.
  - intros H i v Hv. apply list_lookup_imap_Some in Hv as (step & Hi & ->).
    apply verdict_passed_iff, (H i step Hi).
Qed.

Lemma Batch_steps_passed_iff exec qaseSteps :
  Forall (fun v => se_status (v2_execution v) = passed) (Batch.stepsQase exec qaseSteps)
  <-> Forall (fun step => exists a, Batch.assertion exec step = Some a /\ error a = None)
             qaseSteps.
Proof.
  rewrite !Forall_lookup. unfold Batch.stepsQase. split.
  - intros H i step Hi. apply verdict_passed_iff.
    apply (H i (Batch.stepResult exec i step)).
    rewrite list_lookup_imap, Hi. reflexivity.
  - intros H i v Hv. apply list_lookup_imap_Some in Hv as (step & Hi & ->).
    apply verdict_passed_iff, (H i step Hi).
Qed.

(** X8: in src/submit_collection_results_to_qase.js and part_000 an
    execution is reported "passed" exactly when every step of the case finds
    an assertion and the first assertion it finds carries no error; one step
    whose assertion carries an error makes the report "failed" whatever the
    other steps are. *)
Theorem X8_passed_iff_every_step_backed (exec : Execution) (caseId : N)
    (qaseSteps : list CaseStep) :
  (status (PerCase.resultBody exec caseId qaseSteps) = passed
   <-> Forall (fun step => exists a, PerCase.assertion exec step = Some a /\ error a = None)
              qaseSteps)
  /\ (te_status (tc_execution (Batch.tcResult exec caseId qaseSteps)) = passed
      <-> Forall (fun step => exists a, Batch.assertion exec step = Some a /\ error a = None)
                 qaseSteps)
  /\ (forall step a e,
        step ∈ qaseSteps -> PerCase.assertion exec step = Some a -> error a = Some e ->
        status (PerCase.resultBody exec caseId qaseSteps) = failed
        /\ te_status (tc_execution (Batch.tcResult exec caseId qaseSteps)) = failed).
Proof.
  pose proof (PerCase_status_passed_iff exec caseId qaseSteps) as HP.
  pose proof (Batch_status_passed_iff exec caseId qaseSteps) as HB.
  rewrite PerCase_steps_passed_iff in HP. rewrite Batch_steps_passed_iff in HB.
  split; [exact HP|]. split; [exact HB|].
  intros step a e Hin Ha He. split.
  - apply (status_failed_iff _ _ HP). intros Hall.
    rewrite Forall_forall in Hall. destruct (Hall step Hin) as (a' & Ha' & He').
    congruence.
  - apply (status_failed_iff _ _ HB). intros Hall.
    rewrite Forall_forall in Hall. destruct (Hall step Hin) as (a' & Ha' & He').
    change (Batch.assertion exec step) with (PerCase.assertion exec step) in Ha'.
    congruence.
Qed.

Lemma X8_passed_iff_every_step_backed_witness :
  let a := {| name := "Status code is 200";
              error := Some {| message := "expected 200 got 500" |} |} in
  let ok := {| name := "Body has token"; error := None |} in
  let s1 := {| position := Some 1; action := None;
               expected_result := Some "Body has token" |} in
  let s2 := {| position := Some 2; action := None;
               expected_result := Some "Status code is 200" |} in
  status (PerCase.resultBody (named "Login Qase:501" [ok; a]) 501 [s1; s2]) = failed
  /\ te_status (tc_execution (Batch.tcResult (named "Login Qase:501" [ok; a]) 501 [s1; s2]))
     = failed.
Proof.
  cbv zeta.
  apply (proj2 (proj2 (X8_passed_iff_every_step_backed
           (named "Login Qase:501"
              [ {| name := "Body has token"; error := None |};
                {| name := "Status code is 200";
                   error := Some {| message := "expected 200 got 500" |} |} ])
           501
           [ {| position := Some 1; action := None;
                expected_result := Some "Body has token" |};
             {| position := Some 2; action := None;
                expected_result := Some "Status code is 200" |} ]))
         {| position := Some 2; action := None;
            expected_result := Some "Status code is 200" |}
         {| name := "Status code is 200";
            error := Some {| message := "expected 200 got 500" |} |}
         {| message := "expected 200 got 500" |}).
  - apply list_elem_of_In. simpl. auto.
  - reflexivity.
  - reflexivity.
Defined.

Lemma find_skip_unnamed (target : option string) (l1 l2 : list Assertion) (b : Assertion) :
  Some (name b) <> target ->
  find (fun a => strictEquals (name a) target) (l1 ++ b :: l2)
  = find (fun a => strictEquals (name a) target) (l1 ++ l2).
Proof.
  intros Hb. apply strictEquals_false in Hb.
  induction l1 as [|x l1 IH]; simpl.
  - rewrite Hb. reflexivity.
  - rewrite IH. reflexivity.
Qed.

(** X9: an assertion that no step of the case expects has no influence on
    the step verdicts and on the overall status reported by
    src/submit_collection_results_to_qase.js and part_000, wherever it stands
    among the assertions and whether it failed or not. *)
Theorem X9_unexpected_assertion_is_ignored (exec : Execution) (l1 l2 : list Assertion)
    (b : Assertion) (caseId : N) (qaseSteps : list CaseStep) :
  Forall (fun step => Some (name b) <> unescapeMarkdown (expected_result step)) qaseSteps ->
  PerCase.stepsQase (withAssertions exec (l1 ++ b :: l2)) qaseSteps
  = PerCase.stepsQase (withAssertions exec (l1 ++ l2)) qaseSteps
  /\ status (PerCase.resultBody (withAssertions exec (l1 ++ b :: l2)) caseId qaseSteps)
     = status (PerCase.resultBody (withAssertions exec (l1 ++ l2)) caseId qaseSteps)
  /\ Batch.stepsQase (withAssertions exec (l1 ++ b :: l2)) qaseSteps
     = Batch.stepsQase (withAssertions exec (l1 ++ l2)) qaseSteps
  /\ te_status (tc_execution (Batch.tcResult (withAssertions exec (l1 ++ b :: l2)) caseId qaseSteps))
     = te_status (tc_execution (Batch.tcResult (withAssertions exec (l1 ++ l2)) caseId qaseSteps)).
Proof.
  intros Hb.
  assert (HP : PerCase.stepsQase (withAssertions exec (l1 ++ b :: l2)) qaseSteps
               = PerCase.stepsQase (withAssertions exec (l1 ++ l2)) qaseSteps).
  { apply imap_ext. intros i step Hi.
    pose proof (Forall_lookup_1 _ _ _ _ Hb Hi) as Hstep. cbn in Hstep.
    unfold PerCase.stepResult, PerCase.assertion, withAssertions. cbn [assertions].
    rewrite (find_skip_unnamed _ l1 l2 b Hstep). reflexivity. }
  assert (HB : Batch.stepsQase (withAssertions exec (l1 ++ b :: l2)) qaseSteps
               = Batch.stepsQase (withAssertions exec (l1 ++ l2)) qaseSteps).
  { apply imap_ext. intros i step Hi.
    pose proof (Forall_lookup_1 _ _ _ _ Hb Hi) as Hstep. cbn in Hstep.
    unfold Batch.stepResult, Batch.assertion, withAssertions. cbn [assertions].
    rewrite (find_skip_unnamed _ l1 l2 b Hstep). reflexivity. }
  split; [exact HP|]. split; [|split; [exact HB|]].
  - unfold PerCase.resultBody. cbn [status]. rewrite HP. reflexivity.
  - unfold Batch.tcResult. cbn [te_status tc_execution]. rewrite HB. reflexivity.
Qed.

Lemma X9_unexpected_assertion_is_ignored_witness :
  let ok := {| name := "Status code is 200"; error := None |} in
  let extra := {| name := "Response time is low";
                  error := Some {| message := "took 900ms" |} |} in
  let step := {| position := Some 1; action := None;
                 expected_result := Some "Status code is 200" |} in
  status (PerCase.resultBody (withAssertions (named "Login Qase:501" []) ([ok] ++ extra :: []))
            501 [step])
  = status (PerCase.resultBody (withAssertions (named "Login Qase:501" []) ([ok] ++ []))
              501 [step]).
Proof.
  cbv zeta.
  apply (proj1 (proj2 (X9_unexpected_assertion_is_ignored
           (named "Login Qase:501" [])
           [ {| name := "Status code is 200"; error := None |} ] []
           {| name := "Response time is low";
              error := Some {| message := "took 900ms" |} |}
           501
           [ {| position := Some 1; action := None;
                expected_result := Some "Status code is 200" |} ]
           ltac:(repeat constructor; simpl; discriminate)))).
Defined.

(** ** The three scripts compared *)

Lemma unescapeMarkdown_plain (v : option string) :
  (forall t, v = Some t -> hasEscape t = false) -> unescapeMarkdown v = v.
Proof.
  intros H. destruct v as [t|]; [|reflexivity].
  rewrite unescapeMarkdown_Some, (replaceEscapes_fixed t (H t eq_refl)). reflexivity.
Qed.

(** X10: when no [expected_result] of the case holds an escape, part_001
    computes the same steps as src/submit_collection_results_to_qase.js: the
    two scripts differ on the steps only through the unescaping. *)
Theorem X10_legacy_steps_agree_without_escapes (exec : Execution) (qaseSteps : list CaseStep) :
  Forall (fun step => forall t, expected_result step = Some t -> hasEscape t = false)
         qaseSteps ->
  Legacy.stepsQase exec qaseSteps = PerCase.stepsQase exec qaseSteps.
Proof.
  intros H. apply imap_ext. intros i step Hi.
  pose proof (Forall_lookup_1 _ _ _ _ H Hi) as Hstep. cbn in Hstep.
  unfold Legacy.stepResult, PerCase.stepResult, Legacy.assertion, PerCase.assertion.
  rewrite (unescapeMarkdown_plain _ Hstep). reflexivity.
Qed.

Lemma X10_legacy_steps_agree_without_escapes_witness :
  let exec := named "Login Qase:501" [ {| name := "Status code is 200"; error := None |} ] in
  let step := {| position := None; action := Some "Send request";
                 expected_result := Some "Status code is 200" |} in
  Legacy.stepsQase exec [step] = PerCase.stepsQase exec [step].
Proof.
  cbv zeta. apply X10_legacy_steps_agree_without_escapes.
  repeat constructor. simpl. intros t [= <-]. reflexivity.
Defined.

Lemma every_not_failed_flatten (l : list StepResultV2) :
  forallb (fun a => negb (Status_eqb (se_status (v2_execution a)) failed)) l
  = forallb (fun a => negb (Status_eqb (sr_status a) failed)) (flattenStep <$> l).
Proof. induction l as [|x l IH]; [reflexivity|]. cbn. rewrite IH. reflexivity. Qed.

Lemma Batch_steps_flatten exec qaseSteps :
  flattenStep <$> Batch.stepsQase exec qaseSteps = PerCase.stepsQase exec qaseSteps.
Proof.
  unfold Batch.stepsQase, PerCase.stepsQase. rewrite fmap_imap.
  apply imap_ext. intros i step _. reflexivity.
Qed.

(** X11: the element part_000 pushes on [tc_results] carries what
    src/submit_collection_results_to_qase.js posts for the same execution,
    case id and steps: the same steps once read in the v1 shape, the same
    overall status, the comment as description, the case id as
    [testops_id], and in addition the name of the execution as title. *)
Theorem X11_batch_element_carries_percase_body (exec : Execution) (caseId : N)
    (qaseSteps : list CaseStep) :
  flattenStep <$> tc_steps (Batch.tcResult exec caseId qaseSteps)
  = rb_steps (PerCase.resultBody exec caseId qaseSteps)
  /\ te_status (tc_execution (Batch.tcResult exec caseId qaseSteps))
     = status (PerCase.resultBody exec caseId qaseSteps)
  /\ description (tc_fields (Batch.tcResult exec caseId qaseSteps))
     = comment (PerCase.resultBody exec caseId qaseSteps)
  /\ testops_id (Batch.tcResult exec caseId qaseSteps)
     = case_id (PerCase.resultBody exec caseId qaseSteps)
  /\ title (Batch.tcResult exec caseId qaseSteps) = exec_name exec.
Proof.
  split; [apply Batch_steps_flatten|]. split; [|repeat split].
  unfold Batch.tcResult, PerCase.resultBody. cbn [te_status tc_execution status].
  rewrite every_not_failed_flatten, Batch_steps_flatten. reflexivity.
Qed.

(** X12: [stepsQase] gives one step for each step of the case, in order,
    with the action of the step as it is and an [expected_result] that is
    never empty: the text of the step, or the placeholder when the step has
    none or an empty one. *)
Theorem X12_steps_keep_order_and_never_lack_text (exec : Execution)
    (qaseSteps : list CaseStep) :
  length (PerCase.stepsQase exec qaseSteps) = length qaseSteps
  /\ sr_action <$> PerCase.stepsQase exec qaseSteps = action <$> qaseSteps
  /\ Forall (fun v => sr_expected_result v <> EmptyString) (PerCase.stepsQase exec qaseSteps)
  /\ (forall i step t, qaseSteps !! i = Some step -> expected_result step = Some t ->
        t <> EmptyString ->
        sr_expected_result <$> PerCase.stepsQase exec qaseSteps !! i = Some t)
  /\ (forall i step, qaseSteps !! i = Some step ->
        expected_result step = None \/ expected_result step = Some EmptyString ->
        sr_expected_result <$> PerCase.stepsQase exec qaseSteps !! i
        = Some "Expected result").
Proof.
  unfold PerCase.stepsQase. split; [apply length_imap|]. split; [|split; [|split]].
  - rewrite fmap_imap. rewrite <- (imap_const action qaseSteps).
    apply imap_ext. reflexivity.
  - apply Forall_lookup. intros i v Hv.
    apply list_lookup_imap_Some in Hv as (step & _ & ->). cbn.
    destruct (expected_result step) as [[|c t]|]; discriminate.
  - intros i step t Hi Ht Hne. rewrite list_lookup_imap, Hi. cbn. rewrite Ht.
    destruct t; [congruence | reflexivity].
  - intros i step Hi [Ht | Ht]; rewrite list_lookup_imap, Hi; cbn; rewrite Ht; reflexivity.
Qed.

Lemma X12_steps_keep_order_and_never_lack_text_witness :
  let exec := named "Login Qase:501" [] in
  let step := {| position := None; action := None; expected_result := Some "" |} in
  sr_expected_result <$> PerCase.stepsQase exec [step] !! 0%nat = Some "Expected result".
Proof.
  cbv zeta.
  apply (proj2 (proj2 (proj2 (proj2 (X12_steps_keep_order_and_never_lack_text
           (named "Login Qase:501" [])
           [ {| position := None; action := None; expected_result := Some "" |} ]))))
         0%nat {| position := None; action := None; expected_result := Some "" |}
         eq_refl (or_intror eq_refl)).
Defined.

(** ** Requests and failures *)

Lemma allAnswered_nil remote : allAnswered remote [].
Proof. intros pre r post H. destruct pre; discriminate H. Qed.

Lemma allAnswered_snoc remote h r :
  allAnswered remote h -> answered remote (h ++ [r]) = true -> allAnswered remote (h ++ [r]).
Proof.
  intros Hh Hr pre r' post Heq.
  destruct post as [|x post _] using rev_ind.
  - apply app_inj_tail in Heq as [<- <-]. exact Hr.
  - rewrite app_comm_cons, app_assoc in Heq. apply app_inj_tail in Heq as [Heq _].
    apply (Hh pre r' post Heq).
Qed.

Lemma answered_snoc remote h r :
  answered remote (h ++ [r])
  = match r with
    | PostRun _ _ => truthy (runReply remote (h ++ [r]))
    | GetCase _ => truthy (caseReply remote (h ++ [r]))
    | PostResult _ _ => resultReply remote (h ++ [r])
    | PostResults _ _ => resultReply remote (h ++ [r])
    end.
Proof. unfold answered. rewrite last_snoc. reflexivity. Qed.

Lemma orderly_ret {A} remote (a : A) : orderly remote (ret a).
Proof. intros h Hh. split; [reflexivity | exact Hh]. Qed.

Lemma orderly_bind {A B} remote (m : IO A) (k : A -> IO B) :
  orderly remote m -> (forall a, orderly remote (k a)) -> orderly remote (bind m k).
Proof.
  intros Hm Hk h Hh. specialize (Hm h Hh). unfold bind.
  destruct (m h) as [[a|] h1]; destruct Hm as [Hpre Hm]; cbn [fst snd] in *.
  - destruct (Hk a h1 Hm) as [Hpre' Hres]. split; [|exact Hres].
    etransitivity; eassumption.
  - split; [exact Hpre | exact Hm].
Qed.

Lemma orderly_request {A} remote (reply : list Request -> option A) (r : Request) :
  (forall h, answered remote (h ++ [r]) = truthy (reply (h ++ [r]))) ->
  orderly remote (request reply r).
Proof.
  intros Hr h Hh. unfold request. specialize (Hr h).
  destruct (reply (h ++ [r])) as [a|]; cbn [truthy] in Hr;
    (split; [apply prefix_app_r; reflexivity|]); cbn [fst snd].
  - apply allAnswered_snoc; assumption.
  - exists h, r. auto.
Qed.

Lemma orderly_createTestRun remote run_title caseIds :
  orderly remote (createTestRun remote run_title caseIds).
Proof. apply orderly_request. intros h. apply answered_snoc. Qed.

Lemma orderly_getCaseSteps remote caseId : orderly remote (getCaseSteps remote caseId).
Proof.
  apply orderly_bind; [|intros; apply orderly_ret].
  apply orderly_request. intros h. apply answered_snoc.
Qed.

Lemma orderly_postResult remote runId body :
  orderly remote (request (accepted (resultReply remote)) (PostResult runId body)).
Proof.
  apply orderly_request. intros h. rewrite answered_snoc. unfold accepted.
  destruct (resultReply remote _); reflexivity.
Qed.

Lemma orderly_postResults remote runId results :
  orderly remote (request (accepted (resultReply remote)) (PostResults runId results)).
Proof.
  apply orderly_request. intros h. rewrite answered_snoc. unfold accepted.
  destruct (resultReply remote _); reflexivity.
Qed.

Lemma orderly_PerCase_submitResults remote runId execs :
  orderly remote (PerCase.submitResults remote runId execs).
Proof.
  induction execs as [|exec rest IH]; cbn [PerCase.submitResults].
  - apply orderly_ret.
  - destruct (matchQase false (exec_name exec)); [|exact IH].
    apply orderly_bind; [apply orderly_getCaseSteps|]. intros qaseSteps.
    apply orderly_bind; [apply orderly_postResult|]. intros _. exact IH.
Qed.

Lemma orderly_Legacy_submitResults remote runId execs :
  orderly remote (Legacy.submitResults remote runId execs).
Proof.
  induction execs as [|exec rest IH]; cbn [Legacy.submitResults].
  - apply orderly_ret.
  - destruct (matchQase false (exec_name exec)); [|exact IH].
    apply orderly_bind; [apply orderly_getCaseSteps|]. intros qaseSteps.
    apply orderly_bind; [apply orderly_postResult|]. intros _. exact IH.
Qed.

Lemma orderly_Batch_collectResults remote execs :
  forall tc_results, orderly remote (Batch.collectResults remote execs tc_results).
Proof.
  induction execs as [|exec rest IH]; intros tc_results; cbn [Batch.collectResults].
  - apply orderly_ret.
  - destruct (matchQase true (exec_name exec)); [|apply IH].
    apply orderly_bind; [apply orderly_getCaseSteps|]. intros qaseSteps. apply IH.
Qed.

Lemma orderly_PerCase_main remote run_title execs :
  orderly remote (PerCase.main remote run_title execs).
Proof.
  apply orderly_bind; [apply orderly_createTestRun|].
  intros runId. apply orderly_PerCase_submitResults.
Qed.

Lemma orderly_Batch_main remote run_title execs :
  orderly remote (Batch.main remote run_title execs).
Proof.
  apply orderly_bind; [apply orderly_createTestRun|].
  intros runId. apply orderly_bind; [apply orderly_Batch_collectResults|].
  intros tc_results. apply orderly_postResults.
Qed.

Lemma orderly_Legacy_main remote run_title execs :
  orderly remote (Legacy.main remote run_title execs).
Proof.
  apply orderly_bind; [apply orderly_createTestRun|].
  intros runId. apply orderly_Legacy_submitResults.
Qed.

(** X13: each of the three scripts sends its requests one after the other
    and stops at the first one that fails: when the main block returns,
    every request it sent was answered, and when it throws, the last request
    it sent is the one that failed and all the requests before it were
    answered. *)
Theorem X13_scripts_stop_at_first_failure (remote : Remote) (run_title : string)
    (execs : list Execution) :
  stopsAtFirstFailure remote [] (PerCase.main remote run_title execs [])
  /\ stopsAtFirstFailure remote [] (Batch.main remote run_title execs [])
  /\ stopsAtFirstFailure remote [] (Legacy.main remote run_title execs []).
Proof.
  split; [|split].
  - apply orderly_PerCase_main, allAnswered_nil.
  - apply orderly_Batch_main, allAnswered_nil.
  - apply orderly_Legacy_main, allAnswered_nil.
Qed.

(** ** The requests of the submission loops *)

Lemma matchedIds_cons ignoreCase exec rest :
  matchedIds ignoreCase (exec :: rest)
  = match caseIdOf ignoreCase exec with
    | Some id => id :: matchedIds ignoreCase rest
    | None => matchedIds ignoreCase rest
    end.
Proof. unfold matchedIds. cbn. destruct (caseIdOf ignoreCase exec); reflexivity. Qed.

Lemma caseIdOf_matched ignoreCase exec digits :
  matchQase ignoreCase (exec_name exec) = Some digits ->
  caseIdOf ignoreCase exec = Some (parseInt digits).
Proof. intros H. unfold caseIdOf. rewrite H. reflexivity. Qed.

Lemma caseIdOf_unmatched ignoreCase exec :
  matchQase ignoreCase (exec_name exec) = None -> caseIdOf ignoreCase exec = None.
Proof. intros H. unfold caseIdOf. rewrite H. reflexivity. Qed.

Lemma getCaseSteps_thrown remote caseId h :
  caseReply remote (h ++ [GetCase caseId]) = None ->
  getCaseSteps remote caseId h = (Thrown, h ++ [GetCase caseId]).
Proof. intros H. unfold getCaseSteps, bind, request. rewrite H. reflexivity. Qed.

Lemma bind_thrown {A B} (m : IO A) (k : A -> IO B) h h' :
  m h = (Thrown, h') -> bind m k h = (Thrown, h').
Proof. intros H. unfold bind. rewrite H. reflexivity. Qed.

Lemma post_outcome remote r h :
  request (accepted (resultReply remote)) r h
  = (if resultReply remote (h ++ [r]) then Done tt else Thrown, h ++ [r]).
Proof. unfold request, accepted. destruct (resultReply remote (h ++ [r])); reflexivity. Qed.

Lemma bind_post {B} remote r (k : unit -> IO B) h :
  bind (request (accepted (resultReply remote)) r) k h
  = if resultReply remote (h ++ [r]) then k tt (h ++ [r]) else (Thrown, h ++ [r]).
Proof.
  unfold bind. rewrite post_outcome. destruct (resultReply remote (h ++ [r])); reflexivity.
Qed.

Lemma PerCase_submitResults_trace (remote : Remote) (runId : N)
    (execs : list Execution) (h : list Request) :
  exists h',
    snd (PerCase.submitResults remote runId execs h) = h ++ h'
    /\ Forall (forRun runId) h'
    /\ fetched h' `prefix_of` matchedIds false execs
    /\ postedCases h' `prefix_of` fetched h'
    /\ (fst (PerCase.submitResults remote runId execs h) = Done tt ->
        fetched h' = matchedIds false execs
        /\ postedCases h' = matchedIds false execs).
Proof.
  revert h. induction execs as [|exec rest IH]; intros h.
  - exists []. rewrite app_nil_r. cbn.
    split; [reflexivity|]. split; [constructor|]. split; [reflexivity|].
    split; [reflexivity|]. intros _. split; reflexivity.
  - cbn [PerCase.submitResults]. rewrite matchedIds_cons.
    destruct (matchQase false (exec_name exec)) as [digits|] eqn:Hm.
    + rewrite (caseIdOf_matched _ _ _ Hm). set (id := parseInt digits).
      destruct (caseReply remote (h ++ [GetCase id])) as [r|] eqn:Hr.
      * rewrite (bind_done _ _ _ _ _ (getCaseSteps_replied _ _ _ _ Hr)).
        set (body := PerCase.resultBody exec id (default [] (steps r))).
        rewrite bind_post.
        destruct (resultReply remote ((h ++ [GetCase id]) ++ [PostResult runId body])).
        -- destruct (IH ((h ++ [GetCase id]) ++ [PostResult runId body]))
             as (h' & Hsnd & Hfor & Hf & Hp & Hdone).
           exists ([GetCase id; PostResult runId body] ++ h').
           rewrite Hsnd. split; [rewrite <- !app_assoc; reflexivity|].
           split; [repeat constructor; exact Hfor|].
           change (fetched ([GetCase id; PostResult runId body] ++ h'))
             with (id :: fetched h').
           change (postedCases ([GetCase id; PostResult runId body] ++ h'))
             with (id :: postedCases h').
           split; [apply prefix_cons, Hf|]. split; [apply prefix_cons, Hp|].
           intros Hd. destruct (Hdone Hd) as [-> ->]. split; reflexivity.
        -- exists [GetCase id; PostResult runId body]. cbn [fst snd].
           split; [rewrite <- !app_assoc; reflexivity|].
           split; [repeat constructor|]. cbn.
           split; [apply prefix_cons, prefix_nil|]. split; [reflexivity|].
           discriminate.
      * rewrite (bind_thrown _ _ _ _ (getCaseSteps_thrown _ _ _ Hr)).
        exists [GetCase id]. cbn [fst snd]. split; [reflexivity|].
        split; [repeat constructor|]. cbn.
        split; [apply prefix_cons, prefix_nil|]. split; [apply prefix_nil|].
        discriminate.
    + rewrite (caseIdOf_unmatched _ _ Hm). apply IH.
Qed.


Lemma Batch_collectResults_trace remote execs :
  forall tc_results h,
  exists ids,
    ids `prefix_of` matchedIds true execs
    /\ snd (Batch.collectResults remote execs tc_results h) = h ++ (GetCase <$> ids)
    /\ match fst (Batch.collectResults remote execs tc_results h) with
       | Done results =>
           ids = matchedIds true execs
           /\ exists new, results = tc_results ++ new /\ testops_id <$> new = ids
       | Thrown => ids <> []
       end.
Proof.
  induction execs as [|exec rest IH]; intros tc_results h.
  - exists []. cbn. rewrite app_nil_r.
    split; [reflexivity|]. split; [reflexivity|]. split; [reflexivity|].
    exists []. rewrite app_nil_r. split; reflexivity.
  - cbn [Batch.collectResults]. rewrite matchedIds_cons.
    destruct (matchQase true (exec_name exec)) as [digits|] eqn:Hm.
    + rewrite (caseIdOf_matched _ _ _ Hm). set (id := parseInt digits).
      destruct (caseReply remote (h ++ [GetCase id])) as [r|] eqn:Hr.
      * rewrite (bind_done _ _ _ _ _ (getCaseSteps_replied _ _ _ _ Hr)).
        set (elt := Batch.tcResult exec id (default [] (steps r))).
        destruct (IH (tc_results ++ [elt]) (h ++ [GetCase id])) as (ids & Hpre & Hsnd & Hfst).
        exists (id :: ids). split; [apply prefix_cons, Hpre|].
        split; [rewrite Hsnd, <- app_assoc; reflexivity|].
        destruct (fst (Batch.collectResults remote rest (tc_results ++ [elt])
                         (h ++ [GetCase id]))) as [results|].
        -- destruct Hfst as (-> & new & -> & Hnew). split; [reflexivity|].
           exists (elt :: new). rewrite <- app_assoc. split; [reflexivity|].
           cbn. rewrite Hnew. reflexivity.
        -- discriminate.
      * rewrite (bind_thrown _ _ _ _ (getCaseSteps_thrown _ _ _ Hr)).
        exists [id]. cbn [fst snd]. split; [apply prefix_cons, prefix_nil|].
        split; [reflexivity | discriminate].
    + rewrite (caseIdOf_unmatched _ _ Hm). apply IH.
Qed.

(** X15: the submission of part_000 sends only fetches, in report order and
    one per matching execution, until every matching execution has been
    processed; then it posts once, with one result per matching execution in
    report order.  When a fetch fails it has posted no result at all. *)
Theorem X15_batch_posts_once_after_all_fetches (remote : Remote) (runId : N)
    (execs : list Execution) (h : list Request) :
  exists ids,
    ids `prefix_of` matchedIds true execs
    /\ ((Batch.submitResults remote runId execs h = (Thrown, h ++ (GetCase <$> ids))
         /\ ids <> [])
        \/ (ids = matchedIds true execs
            /\ exists results,
                 testops_id <$> results = ids
                 /\ snd (Batch.submitResults remote runId execs h)
                    = h ++ (GetCase <$> ids) ++ [PostResults runId results]
                 /\ fst (Batch.submitResults remote runId execs h)
                    = if resultReply remote (h ++ (GetCase <$> ids)
                                               ++ [PostResults runId results])
                      then Done tt else Thrown)).
Proof.
  destruct (Batch_collectResults_trace remote execs [] h) as (ids & Hpre & Hsnd & Hfst).
  exists ids. split; [exact Hpre|]. unfold Batch.submitResults, bind.
  destruct (Batch.collectResults remote execs [] h) as [[results|] h1];
    cbn [fst snd] in *; subst h1.
  - right. destruct Hfst as (-> & new & -> & Hnew). split; [reflexivity|].
    exists new. split; [exact Hnew|]. cbn [app]. rewrite post_outcome, <- app_assoc.
    split; reflexivity.
  - left. split; [reflexivity | exact Hfst].
Qed.

(** ** Reports without a token *)

Lemma caseIdsWith_unmatched ignoreCase execs :
  Forall (fun e => caseIdOf ignoreCase e = None) execs -> caseIdsWith ignoreCase execs = [].
Proof.
  intros H. unfold caseIdsWith.
  replace (filterBoolean (map (caseIdOf ignoreCase) execs)) with (@nil N); [reflexivity|].
  induction H as [|e l He _ IH]; [reflexivity|]. cbn. rewrite He. exact IH.
Qed.

Lemma caseIdOf_None ignoreCase e :
  caseIdOf ignoreCase e = None -> matchQase ignoreCase (exec_name e) = None.
Proof. unfold caseIdOf. destruct (matchQase ignoreCase (exec_name e)); [discriminate | reflexivity]. Qed.

Lemma PerCase_submitResults_unmatched remote runId execs h :
  Forall (fun e => caseIdOf false e = None) execs ->
  PerCase.submitResults remote runId execs h = (Done tt, h).
Proof.
  intros H. induction H as [|e l He _ IH]; [reflexivity|].
  cbn [PerCase.submitResults]. rewrite (caseIdOf_None _ _ He). exact IH.
Qed.

Lemma Batch_collectResults_unmatched remote execs tc_results h :
  Forall (fun e => caseIdOf true e = None) execs ->
  Batch.collectResults remote execs tc_results h = (Done tc_results, h).
Proof.
  intros H. induction H as [|e l He _ IH]; [reflexivity|].
  cbn [Batch.collectResults]. rewrite (caseIdOf_None _ _ He). exact IH.
Qed.

(** X16: for a report in which no execution name holds the token, the run
    is created all the same, with an empty case list.
    src/submit_collection_results_to_qase.js then sends nothing more, while
    part_000 goes on to post an empty list of results to the run. *)
Theorem X16_report_without_token (remote : Remote) (test_run_tag : string)
    (execs : list Execution) :
  (Forall (fun e => caseIdOf false e = None) execs ->
   PerCase.main remote test_run_tag execs []
   = (match runReply remote [PostRun test_run_tag []] with
      | Some _ => Done tt
      | None => Thrown
      end, [PostRun test_run_tag []]))
  /\ (Forall (fun e => caseIdOf true e = None) execs ->
      Batch.main remote test_run_tag execs []
      = match runReply remote [PostRun test_run_tag []] with
        | Some runId =>
            (if resultReply remote [PostRun test_run_tag []; PostResults runId []]
             then Done tt else Thrown,
             [PostRun test_run_tag []; PostResults runId []])
        | None => (Thrown, [PostRun test_run_tag []])
        end).
Proof.
  split; intros H.
  - unfold PerCase.main, PerCase.caseIds, bind, createTestRun, request.
    rewrite (caseIdsWith_unmatched _ _ H). cbn [app].
    destruct (runReply remote [PostRun test_run_tag []]); [|reflexivity].
    apply PerCase_submitResults_unmatched, H.
  - unfold Batch.main, Batch.caseIds, Batch.submitResults, createTestRun.
    rewrite (caseIdsWith_unmatched _ _ H).
    unfold bind at 1. unfold request at 1. cbn [app].
    destruct (runReply remote [PostRun test_run_tag []]) as [runId|]; [|reflexivity].
    rewrite (bind_done _ _ _ _ _ (Batch_collectResults_unmatched remote execs [] _ H)).
    apply post_outcome.
Qed.

Lemma X16_report_without_token_witness :
  let remote := constantRemote (Some 9) None true in
  let execs := [ named "Health check" []; named "qase:12 in lower case" [] ] in
  PerCase.main remote "Local Run" execs [] = (Done tt, [PostRun "Local Run" []]).
Proof.
  cbv zeta.
  apply (proj1 (X16_report_without_token (constantRemote (Some 9) None true) "Local Run"
                  [ named "Health check" []; named "qase:12 in lower case" [] ])).
  repeat constructor.
Defined.

(** ** The script as a whole *)

Lemma PerCase_main_starts_with_run remote run_title execs :
  exists h, snd (PerCase.main remote run_title execs [])
            = PostRun run_title (PerCase.caseIds execs) :: h.
Proof.
  unfold PerCase.main, bind, createTestRun, request. cbn [app].
  destruct (runReply remote [PostRun run_title (PerCase.caseIds execs)]) as [runId|].
  - destruct (PerCase_submitResults_trace remote runId execs
                [PostRun run_title (PerCase.caseIds execs)]) as (h' & Hsnd & _).
    exists h'. exact Hsnd.
  - exists []. reflexivity.
Qed.

(** X17: without a token or without a project code in the environment
    (missing or empty), the script ends with exit code 1 and has sent no
    request, whatever the report and the service are. *)
Theorem X17_missing_configuration_exits (env : gmap string string)
    (readReport : string -> option (list ReportExecution)) (remote : Remote) :
  truthyString (env !! "QASE_API_TOKEN") = false
  \/ truthyString (env !! "QASE_PROJECT_CODE") = false ->
  script env readReport remote = (1, []).
Proof.
  intros H. unfold script.
  destruct H as [-> | ->]; [reflexivity|].
  rewrite orb_true_r. reflexivity.
Qed.

Lemma X17_missing_configuration_exits_witness :
  script {[ "QASE_API_TOKEN" := "secret" ]} (fun _ => Some [])
         (constantRemote (Some 9) None true)
  = (1, []).
Proof.
  apply X17_missing_configuration_exits. right. reflexivity.
Defined.

(** X18: the exit code of the script is 0 or 1.  It is 0 only when the
    report was read and every request sent was answered, the first of them
    being the creation of the run; it is 1 with requests sent only when the
    last request sent is one that failed. *)
Theorem X18_exit_code_reflects_requests (env : gmap string string)
    (readReport : string -> option (list ReportExecution)) (remote : Remote) :
  (fst (script env readReport remote) = 0 \/ fst (script env readReport remote) = 1)
  /\ (fst (script env readReport remote) = 0 ->
      allAnswered remote (snd (script env readReport remote))
      /\ exists report h,
           readReport (orString (env !! "POSTMAN_JSON_REPORT") "results.json") = Some report
           /\ snd (script env readReport remote)
              = PostRun (orString (env !! "QASE_TEST_RUN_TAG") "Local Run")
                        (PerCase.caseIds (executions report)) :: h)
  /\ (fst (script env readReport remote) = 1 ->
      snd (script env readReport remote) = []
      \/ answered remote (snd (script env readReport remote)) = false).
Proof.
  unfold script.
  destruct (negb (truthyString (env !! "QASE_API_TOKEN"))
            || negb (truthyString (env !! "QASE_PROJECT_CODE"))).
  { cbn. split; [auto|]. split; [discriminate | auto]. }
  destruct (readReport (orString (env !! "POSTMAN_JSON_REPORT") "results.json"))
    as [report|].
  2:{ cbn. split; [auto|]. split; [discriminate | auto]. }
  pose proof (orderly_PerCase_main remote
                (orString (env !! "QASE_TEST_RUN_TAG") "Local Run")
                (executions report) [] (allAnswered_nil remote)) as [_ Hstop].
  destruct (PerCase_main_starts_with_run remote
              (orString (env !! "QASE_TEST_RUN_TAG") "Local Run")
              (executions report)) as [h Hh].
  destruct (PerCase.main remote (orString (env !! "QASE_TEST_RUN_TAG") "Local Run")
              (executions report) []) as [[[]|] h2]; cbn [fst snd exitCode] in *.
  - split; [auto|]. split; [|discriminate].
    intros _. split; [exact Hstop|]. exists report, h. split; [reflexivity | exact Hh].
  - split; [auto|]. split; [discriminate|].
    intros _. right. destruct Hstop as (pre & r & _ & _ & Hr). exact Hr.
Qed.

(** X19: the script reads the report from [results.json] when
    [POSTMAN_JSON_REPORT] is missing or empty and from the file it names
    otherwise, and from no other file; the run it creates is titled
    [Local Run] when [QASE_TEST_RUN_TAG] is missing or empty. *)
Theorem X19_defaults_of_the_environment (env : gmap string string)
    (readReport readReport' : string -> option (list ReportExecution))
    (remote : Remote) :
  (truthyString (env !! "POSTMAN_JSON_REPORT") = false ->
   readReport "results.json" = readReport' "results.json" ->
   script env readReport remote = script env readReport' remote)
  /\ (forall path, env !! "POSTMAN_JSON_REPORT" = Some path -> path <> EmptyString ->
        readReport path = readReport' path ->
        script env readReport remote = script env readReport' remote)
  /\ (truthyString (env !! "QASE_TEST_RUN_TAG") = false ->
      forall r h, snd (script env readReport remote) = r :: h ->
        exists cases, r = PostRun "Local Run" cases).
Proof.
  split; [|split].
  - intros Hp Hr. unfold script.
    replace (orString (env !! "POSTMAN_JSON_REPORT") "results.json") with "results.json"
      by (destruct (env !! "POSTMAN_JSON_REPORT") as [[|c p]|]; [reflexivity | discriminate Hp | reflexivity]).
    rewrite Hr. reflexivity.
  - intros path Hp Hne Hr. unfold script. rewrite Hp.
    replace (orString (Some path) "results.json") with path
      by (destruct path; [congruence | reflexivity]).
    rewrite Hr. reflexivity.
  - intros Ht r h. unfold script.
    replace (orString (env !! "QASE_TEST_RUN_TAG") "Local Run") with "Local Run"
      by (destruct (env !! "QASE_TEST_RUN_TAG") as [[|c p]|]; [reflexivity | discriminate Ht | reflexivity]).
    destruct (negb (truthyString (env !! "QASE_API_TOKEN"))
              || negb (truthyString (env !! "QASE_PROJECT_CODE"))); [discriminate|].
    destruct (readReport (orString (env !! "POSTMAN_JSON_REPORT") "results.json"))
      as [report|]; [|discriminate].
    destruct (PerCase_main_starts_with_run remote "Local Run" (executions report))
      as [h' Hh'].
    destruct (PerCase.main remote "Local Run" (executions report) []) as [o h2].
    cbn [snd] in *. subst h2. intros [= <- _]. eauto.
Qed.

Lemma X19_defaults_of_the_environment_witness :
  let env : gmap string string :=
    {[ "QASE_API_TOKEN" := "secret"; "QASE_PROJECT_CODE" := "DEMO" ]} in
  let report := [ {| requestExecuted_name := "Login Qase:501"; tests := None |} ] in
  let remote := constantRemote (Some 9) None true in
  script env (fun path => if String.eqb path "results.json" then Some report else None) remote
  = script env (fun _ => Some report) remote.
Proof.
  cbv zeta.
  apply (proj1 (X19_defaults_of_the_environment
                  {[ "QASE_API_TOKEN" := "secret"; "QASE_PROJECT_CODE" := "DEMO" ]}
                  (fun path => if String.eqb path "results.json"
                               then Some [ {| requestExecuted_name := "Login Qase:501";
                                              tests := None |} ]
                               else None)
                  (fun _ => Some [ {| requestExecuted_name := "Login Qase:501";
                                      tests := None |} ])
                  (constantRemote (Some 9) None true))).
  - reflexivity.
  - reflexivity.
Defined.

(** ** Executions without tests *)

(** X20: an entry of the report without [tests] is loaded as an execution
    without assertions, under the name of its request.  Such an execution is
    submitted with an empty comment; in
    src/submit_collection_results_to_qase.js every step of its case is
    "failed" and so is the execution as soon as the case has a step, while
    part_001 reports it "passed". *)
Theorem X20_entry_without_tests (report : list ReportExecution) (i : nat)
    (e : ReportExecution) :
  report !! i = Some e -> tests e = None ->
  exists exec,
    executions report !! i = Some exec
    /\ exec_name exec = requestExecuted_name e
    /\ assertions exec = []
    /\ forall caseId qaseSteps,
         comment (PerCase.resultBody exec caseId qaseSteps) = EmptyString
         /\ Forall (fun v => sr_status v = failed)
                   (rb_steps (PerCase.resultBody exec caseId qaseSteps))
         /\ (qaseSteps <> [] -> status (PerCase.resultBody exec caseId qaseSteps) = failed)
         /\ status (Legacy.resultBody exec caseId qaseSteps) = passed.
Proof.
  intros Hi Ht.
  exists {| exec_name := requestExecuted_name e; assertions := [] |}.
  split.
  { unfold executions. change (map ?f report) with (f <$> report).
    rewrite list_lookup_fmap, Hi. cbn. rewrite Ht. reflexivity. }
  split; [reflexivity|]. split; [reflexivity|].
  intros caseId qaseSteps.
  assert (Hfail : Forall (fun v => sr_status v = failed)
            (PerCase.stepsQase {| exec_name := requestExecuted_name e; assertions := [] |}
               qaseSteps)).
  { apply PerCase_unmatched_steps_fail. apply Forall_forall. reflexivity. }
  split; [reflexivity|]. split; [exact Hfail|]. split; [|reflexivity].
  intros Hne.
  apply (status_failed_iff _ _ (PerCase_status_passed_iff _ caseId qaseSteps)).
  apply not_all_passed_when_all_failed; [|exact Hfail].
  intros Hnil. apply (f_equal length) in Hnil. unfold PerCase.stepsQase in Hnil.
  rewrite length_imap in Hnil. destruct qaseSteps; [congruence | discriminate Hnil].
Qed.

Lemma X20_entry_without_tests_witness :
  exists exec,
    executions [ {| requestExecuted_name := "Login Qase:501"; tests := None |} ] !! 0%nat
    = Some exec
    /\ exec_name exec = "Login Qase:501"
    /\ assertions exec = []
    /\ forall caseId qaseSteps,
         comment (PerCase.resultBody exec caseId qaseSteps) = EmptyString
         /\ Forall (fun v => sr_status v = failed)
                   (rb_steps (PerCase.resultBody exec caseId qaseSteps))
         /\ (qaseSteps <> [] -> status (PerCase.resultBody exec caseId qaseSteps) = failed)
         /\ status (Legacy.resultBody exec caseId qaseSteps) = passed.
Proof.
  apply (X20_entry_without_tests
           [ {| requestExecuted_name := "Login Qase:501"; tests := None |} ] 0%nat
           {| requestExecuted_name := "Login Qase:501"; tests := None |});
    reflexivity.
Defined.
